(** * Roadify sensor logger: a shallow embedding of
    [src/context/SensorLoggerContext.tsx]

    The provider component keeps three pieces of React state ([log],
    [logging], [sessionId]), seven refs, and one effect keyed on [logging]
    that subscribes the location watcher and the accelerometer listener and
    arms the one-second upload timer.

    JavaScript numbers are IEEE 754 binary64 values; they are modelled by
    Rocq's primitive floats, whose operations are the binary64 ones.
    Platform answers the code awaits (permission status, Firestore write
    outcome, the current position, the clock) are arguments of the operation
    that awaits them.  Each handler and each callback runs to completion
    before the next one starts; where a statement depends on it, it says
    so, and two sections split a function at its first [await] to look at
    what another handler or callback can do in between. *)

From Stdlib Require Import Floats.PrimFloat Floats.FloatOps Floats.SpecFloat
  Floats.FloatAxioms.
From Stdlib Require Import ZArith QArith Qabs Qpower Bool List String
  DecimalString Lia Lqa.
Import ListNotations.

Local Open Scope string_scope.
Local Open Scope float_scope.

(** ** JavaScript values *)

Module JS.

(** [n] used as a condition: zero (of either sign) and NaN are falsy. *)
Definition truthy (n : float) : bool :=
  negb (n =? 0) && negb (is_nan n).

(** [a || b] on numbers. *)
Definition or (a b : float) : float :=
  if truthy a then a else b.

(** [s] used as a condition: only the empty string is falsy. *)
Definition truthy_string (s : string) : bool :=
  negb (String.eqb s "").

(** [s || d] on strings. *)
Definition or_string (s d : string) : string :=
  if truthy_string s then s else d.

(** [String(n)] for a non-negative integer. *)
Definition String_ (n : nat) : string :=
  NilZero.string_of_uint (Nat.to_uint n).

(** The first [n] characters of [pad] repeated; [cur] is what is left of
    the current repetition. *)
Fixpoint fill (n : nat) (pad cur : string) : string :=
  match n with
  | O => ""
  | S n' =>
      match cur with
      | String c rest => String c (fill n' pad rest)
      | EmptyString =>
          match pad with
          | String c rest => String c (fill n' pad rest)
          | EmptyString => ""
          end
      end
  end.

(** [s.padStart(targetLength, padString)]. *)
Definition padStart (targetLength : nat) (padString s : string) : string :=
  fill (targetLength - String.length s) padString padString ++ s.

(** The fields of a [Date] read by the code, as its getters return them
    (months count from zero). *)
Record Date := mkDate {
  getFullYear : nat;
  getMonth : nat;
  getDate : nat;
  getHours : nat;
  getMinutes : nat;
  getSeconds : nat
}.

(** The functions of [Math] whose results depend on the engine.
    [Math.sqrt] is the binary64 square root and [Math.PI] a constant. *)
Record MathLib := mkMath {
  sin : float -> float;
  cos : float -> float;
  atan2 : float -> float -> float
}.

Definition PI : float := 0x1.921fb54442d18p+1.

End JS.

(** ** Data types *)

Module LogEntry.
Record t := mk {
  x : float;
  y : float;
  z : float;
  timestamp : float;
  latitude : float;
  longitude : float;
  speed : float;
  vehicletype : string
}.
End LogEntry.

(** [{ latitude, longitude }], the value held by [latestLocation]. *)
Module LatLng.
Record t := mk { latitude : float; longitude : float }.
End LatLng.

(** [{ lat, lng, time }], the value held by [lastLocationRef]. *)
Module LastLocation.
Record t := mk { lat : float; lng : float; time : float }.
End LastLocation.

(** A location object of expo-location: [coords.speed] may be [null]. *)
Module LocationObject.
Record t := mk {
  latitude : float;
  longitude : float;
  speed : option float;
  timestamp : float
}.
End LocationObject.

(** The measurement handed to the accelerometer listener. *)
Module AccelerometerData.
Record t := mk { x : float; y : float; z : float }.
End AccelerometerData.

Inductive PermissionStatus := granted | denied | undetermined.

Definition is_granted (st : PermissionStatus) : bool :=
  match st with granted => true | _ => false end.

(** The parent document written by [startNew]. *)
Record SessionDoc := mkSessionDoc {
  created_at : JS.Date;
  session_id : string;
  status : string;
  device_speed_check : string;
  session_vehicletype : string
}.

(** The document written by one upload. *)
Record BatchDoc := mkBatchDoc {
  batch_timestamp : float;
  data : list LogEntry.t;
  y_values : list float;
  location : LatLng.t;
  batch_speed : float;
  batch_vehicletype : string
}.

(** ** Distance and speed *)

Definition SMOOTHING_FACTOR : float := 0x1.999999999999ap-1. (* 0.8 *)

Definition KMH_PER_MPS : float := 0x1.ccccccccccccdp+1. (* 3.6 *)

Definition deg2rad (deg : float) : float := deg * (JS.PI / 180).

Section Estimator.

Variable Math : JS.MathLib.

Definition getDistanceFromLatLonInMeters (lat1 lon1 lat2 lon2 : float)
  : float :=
  let R := 6371 in
  let dLat := deg2rad (lat2 - lat1) in
  let dLon := deg2rad (lon2 - lon1) in
  let a :=
    JS.sin Math (dLat / 2) * JS.sin Math (dLat / 2) +
    JS.cos Math (deg2rad lat1) *
      JS.cos Math (deg2rad lat2) *
      JS.sin Math (dLon / 2) *
      JS.sin Math (dLon / 2) in
  let c := 2 * JS.atan2 Math (sqrt a) (sqrt (1 - a)) in
  let d := R * c in
  d * 1000.

(** [speed !== null && speed >= 0] *)
Definition speed_supplied (speed : option float) : bool :=
  match speed with
  | Some v => 0 <=? v
  | None => false
  end.

Definition timeDiffSeconds (timestamp : float) (last : LastLocation.t)
  : float :=
  (timestamp - LastLocation.time last) / 1000.

(** The value of [currentSpeedKmh] when the location callback reaches the
    smoothing step. *)
Definition currentSpeedKmh (speed : option float)
    (lastLocation : option LastLocation.t)
    (latitude longitude timestamp : float) : float :=
  let fromFixes :=
    match lastLocation with
    | Some last =>
        let distMeters :=
          getDistanceFromLatLonInMeters
            (LastLocation.lat last) (LastLocation.lng last)
            latitude longitude in
        if 0 <? timeDiffSeconds timestamp last
        then
          let speedMs := distMeters / timeDiffSeconds timestamp last in
          speedMs * KMH_PER_MPS
        else 0
    | None => 0
    end in
  match speed with
  | Some v => if 0 <=? v then v * KMH_PER_MPS else fromFixes
  | None => fromFixes
  end.

End Estimator.

(** [latestSpeed.current * (1 - SMOOTHING_FACTOR)
     + currentSpeedKmh * SMOOTHING_FACTOR] *)
Definition smooth (previousSmoothed newRaw : float) : float :=
  previousSmoothed * (1 - SMOOTHING_FACTOR) + newRaw * SMOOTHING_FACTOR.

(** The rational number a finite binary64 value stands for. *)
Definition SF2Q (f : spec_float) : option Q :=
  match f with
  | S754_zero _ => Some 0%Q
  | S754_finite s m e =>
      Some ((if s then -1 else 1) * inject_Z (Z.pos m) * Qpower 2 e)%Q
  | _ => None
  end.

Definition exact (v : float) : option Q := SF2Q (Prim2SF v).

Definition formatDate (date : JS.Date) : string :=
  let year := JS.getFullYear date in
  let month := JS.padStart 2 "0" (JS.String_ (JS.getMonth date + 1)) in
  let day := JS.padStart 2 "0" (JS.String_ (JS.getDate date)) in
  let hour := JS.padStart 2 "0" (JS.String_ (JS.getHours date)) in
  let minute := JS.padStart 2 "0" (JS.String_ (JS.getMinutes date)) in
  let second := JS.padStart 2 "0" (JS.String_ (JS.getSeconds date)) in
  JS.String_ year ++ "-" ++ month ++ "-" ++ day ++ "-" ++ hour ++ "-" ++
  minute ++ "-" ++ second.

(** ** Platform calls

    What the component asks of the platform, in the order it asks.  A
    Firestore write carries whether the promise it returned resolved. *)

Inductive Producer := motion | position.

Module Call.
Inductive t :=
| console_log (msg : string)
| console_warn (msg : string)
| console_error (msg : string)
| setDoc (id : string) (doc : SessionDoc) (resolved : bool)
| addDoc (sessionId : string) (doc : BatchDoc) (resolved : bool)
| requestForegroundPermissionsAsync (answer : PermissionStatus)
| getCurrentPositionAsync
| watchPositionAsync
| setUpdateInterval (ms : nat)
| addListener
| remove (which : Producer)
| setInterval (ms : nat)
| clearInterval.
End Call.

(** ** The provider's store *)

(** What a subscription ref points to: the handle returned by the platform,
    live until its [remove] is called. *)
Inductive Subscription := Live | Removed.

(** The variables closed over by the effect's last run: its own [active],
    the [logging] and (through [uploadBatchToFirestore]) the [sessionId] of
    the render it ran in, and whether the timer it set is armed. *)
Record EffectClosure := mkEffect {
  active : bool;
  closure_logging : bool;
  closure_sessionId : option string;
  intervalId : bool
}.

Record Store := mkStore {
  log : list LogEntry.t;
  logging : bool;
  sessionId : option string;
  accelerometerSub : option Subscription;
  locationWatcher : option Subscription;
  lastLocationRef : option LastLocation.t;
  latestLocation : LatLng.t;
  latestSpeed : float;
  sampleBuffer : list LogEntry.t;
  currentVehicleTypeRef : string;
  effect : EffectClosure
}.

(** The store after mount: the effect ran once with [logging = false], so
    [setupSensors] returned at once and no timer was set. *)
Definition mounted : Store :=
  {| log := [];
     logging := false;
     sessionId := None;
     accelerometerSub := None;
     locationWatcher := None;
     lastLocationRef := None;
     latestLocation := LatLng.mk 0 0;
     latestSpeed := 0;
     sampleBuffer := [];
     currentVehicleTypeRef := "";
     effect := mkEffect true false None false |}.

(** ** A monad for handlers: store, emitted calls, exceptions *)

Inductive Outcome (A : Type) :=
| Returned (a : A)
| Thrown.
Arguments Returned {A} a.
Arguments Thrown {A}.

Definition M (A : Type) : Type := Store -> Outcome A * Store * list Call.t.

Definition ret {A} (a : A) : M A := fun s => (Returned a, s, []).

Definition bind {A B} (m : M A) (k : A -> M B) : M B :=
  fun s =>
    match m s with
    | (Returned a, s1, t1) =>
        match k a s1 with
        | (o, s2, t2) => (o, s2, (t1 ++ t2)%list)
        end
    | (Thrown, s1, t1) => (Thrown, s1, t1)
    end.

Declare Scope js_scope.
Delimit Scope js_scope with js.
Notation "x <- m ;; k" := (bind m (fun x => k))
  (at level 61, m at next level, right associativity) : js_scope.
Notation "m ;; k" := (bind m (fun _ => k))
  (at level 61, right associativity) : js_scope.
Local Open Scope js_scope.

Definition get : M Store := fun s => (Returned s, s, []).

Definition modify (f : Store -> Store) : M unit :=
  fun s => (Returned tt, f s, []).

Definition call (c : Call.t) : M unit := fun s => (Returned tt, s, [c]).

Definition throw {A} : M A := fun s => (Thrown, s, []).

(** [try { body } catch (err) { handler }] *)
Definition try_catch {A} (body handler : M A) : M A :=
  fun s =>
    match body s with
    | (Returned a, s1, t1) => (Returned a, s1, t1)
    | (Thrown, s1, t1) =>
        match handler s1 with
        | (o, s2, t2) => (o, s2, (t1 ++ t2)%list)
        end
    end.

(** [await p] for a promise that resolves or rejects. *)
Definition await (c : Call.t) (resolved : bool) : M unit :=
  call c ;; if resolved then ret tt else throw.

Definition exec {A} (m : M A) (s : Store) : Store := snd (fst (m s)).
Definition calls {A} (m : M A) (s : Store) : list Call.t := snd (m s).
Definition outcome {A} (m : M A) (s : Store) : Outcome A := fst (fst (m s)).

(** *** State setters and ref assignments *)

Definition setLog (f : list LogEntry.t -> list LogEntry.t) : M unit :=
  modify (fun s =>
    mkStore (f (log s)) (logging s) (sessionId s) (accelerometerSub s)
      (locationWatcher s) (lastLocationRef s) (latestLocation s)
      (latestSpeed s) (sampleBuffer s) (currentVehicleTypeRef s) (effect s)).

Definition setLogging (v : bool) : M unit :=
  modify (fun s =>
    mkStore (log s) v (sessionId s) (accelerometerSub s)
      (locationWatcher s) (lastLocationRef s) (latestLocation s)
      (latestSpeed s) (sampleBuffer s) (currentVehicleTypeRef s) (effect s)).

Definition setSessionId (v : option string) : M unit :=
  modify (fun s =>
    mkStore (log s) (logging s) v (accelerometerSub s)
      (locationWatcher s) (lastLocationRef s) (latestLocation s)
      (latestSpeed s) (sampleBuffer s) (currentVehicleTypeRef s) (effect s)).

Definition set_accelerometerSub (v : option Subscription) : M unit :=
  modify (fun s =>
    mkStore (log s) (logging s) (sessionId s) v
      (locationWatcher s) (lastLocationRef s) (latestLocation s)
      (latestSpeed s) (sampleBuffer s) (currentVehicleTypeRef s) (effect s)).

Definition set_locationWatcher (v : option Subscription) : M unit :=
  modify (fun s =>
    mkStore (log s) (logging s) (sessionId s) (accelerometerSub s)
      v (lastLocationRef s) (latestLocation s)
      (latestSpeed s) (sampleBuffer s) (currentVehicleTypeRef s) (effect s)).

Definition set_lastLocationRef (v : option LastLocation.t) : M unit :=
  modify (fun s =>
    mkStore (log s) (logging s) (sessionId s) (accelerometerSub s)
      (locationWatcher s) v (latestLocation s)
      (latestSpeed s) (sampleBuffer s) (currentVehicleTypeRef s) (effect s)).

Definition set_latestLocation (v : LatLng.t) : M unit :=
  modify (fun s =>
    mkStore (log s) (logging s) (sessionId s) (accelerometerSub s)
      (locationWatcher s) (lastLocationRef s) v
      (latestSpeed s) (sampleBuffer s) (currentVehicleTypeRef s) (effect s)).

Definition set_latestSpeed (v : float) : M unit :=
  modify (fun s =>
    mkStore (log s) (logging s) (sessionId s) (accelerometerSub s)
      (locationWatcher s) (lastLocationRef s) (latestLocation s)
      v (sampleBuffer s) (currentVehicleTypeRef s) (effect s)).

Definition set_sampleBuffer (v : list LogEntry.t) : M unit :=
  modify (fun s =>
    mkStore (log s) (logging s) (sessionId s) (accelerometerSub s)
      (locationWatcher s) (lastLocationRef s) (latestLocation s)
      (latestSpeed s) v (currentVehicleTypeRef s) (effect s)).

Definition set_currentVehicleTypeRef (v : string) : M unit :=
  modify (fun s =>
    mkStore (log s) (logging s) (sessionId s) (accelerometerSub s)
      (locationWatcher s) (lastLocationRef s) (latestLocation s)
      (latestSpeed s) (sampleBuffer s) v (effect s)).

Definition set_effect (v : EffectClosure) : M unit :=
  modify (fun s =>
    mkStore (log s) (logging s) (sessionId s) (accelerometerSub s)
      (locationWatcher s) (lastLocationRef s) (latestLocation s)
      (latestSpeed s) (sampleBuffer s) (currentVehicleTypeRef s) v).

(** ** The component *)

Definition addDoc (sessionId : string) (doc : BatchDoc) (resolves : bool)
  : M unit :=
  await (Call.addDoc sessionId doc resolves) resolves.

Definition setDoc (id : string) (doc : SessionDoc) (resolves : bool)
  : M unit :=
  await (Call.setDoc id doc resolves) resolves.

(** [await Location.getCurrentPositionAsync(...)]: rejects when no fix can
    be had. *)
Definition getCurrentPositionAsync (answer : option LocationObject.t)
  : M LocationObject.t :=
  call Call.getCurrentPositionAsync ;;
  match answer with
  | Some loc => ret loc
  | None => throw
  end.

(** [uploadBatchToFirestore], with the [sessionId] it closes over as an
    argument.  [dateNow] is what [Date.now()] returns and [resolves]
    whether the write succeeds; the write settles before any other
    callback runs. *)
Definition uploadBatchToFirestore (sessionId : option string)
    (dateNow : float) (resolves : bool) : M unit :=
  match sessionId with
  | None => ret tt
  | Some sessionId =>
      if negb (JS.truthy_string sessionId) then ret tt else
      s <- get ;;
      if Nat.eqb (List.length (sampleBuffer s)) 0 then ret tt else
      try_catch
        (let y_values := map LogEntry.y (sampleBuffer s) in
         addDoc sessionId
           {| batch_timestamp := dateNow;
              data := sampleBuffer s;
              y_values := y_values;
              location :=
                LatLng.mk (LatLng.latitude (latestLocation s))
                          (LatLng.longitude (latestLocation s));
              batch_speed := latestSpeed s;
              batch_vehicletype := currentVehicleTypeRef s |}
           resolves ;;
         s <- get ;;
         call (Call.console_log
                 ("Uploaded batch of " ++
                  JS.String_ (List.length (sampleBuffer s)) ++
                  " samples to Firestore")) ;;
         set_sampleBuffer [])
        (call (Call.console_warn "Failed to upload batch:"))
  end.

Section Provider.

Variable Math : JS.MathLib.

(** The callback given to [Location.watchPositionAsync]. *)
Definition locationCallback (location : LocationObject.t) (dateNow : float)
  : M unit :=
  let latitude := LocationObject.latitude location in
  let longitude := LocationObject.longitude location in
  let speed := LocationObject.speed location in
  let timestamp := JS.or (LocationObject.timestamp location) dateNow in
  set_latestLocation (LatLng.mk latitude longitude) ;;
  s <- get ;;
  let currentSpeedKmh :=
    currentSpeedKmh Math speed (lastLocationRef s)
      latitude longitude timestamp in
  set_lastLocationRef (Some (LastLocation.mk latitude longitude timestamp)) ;;
  s <- get ;;
  set_latestSpeed (smooth (latestSpeed s) currentSpeedKmh).

(** The listener given to [Accelerometer.addListener]; [active] and
    [logging] are the effect closure's. *)
Definition accelerometerListener (data : AccelerometerData.t)
    (dateNow : float) : M unit :=
  s <- get ;;
  if negb (active (effect s)) || negb (closure_logging (effect s))
  then ret tt else
  if latestSpeed s <? 5 then ret tt else
  let entry :=
    {| LogEntry.x := AccelerometerData.x data;
       LogEntry.y := AccelerometerData.y data;
       LogEntry.z := AccelerometerData.z data;
       LogEntry.timestamp := dateNow;
       LogEntry.latitude := LatLng.latitude (latestLocation s);
       LogEntry.longitude := LatLng.longitude (latestLocation s);
       LogEntry.speed := latestSpeed s;
       LogEntry.vehicletype := JS.or_string (currentVehicleTypeRef s) "" |} in
  set_sampleBuffer (sampleBuffer s ++ [entry])%list ;;
  setLog (fun prev => (prev ++ [entry])%list).

(** [setupSensors] of the effect run in a render where [logging] has the
    given value; [permission] is the platform's answer if it gets asked. *)
Definition setupSensors (logging : bool) (permission : PermissionStatus)
  : M unit :=
  if negb logging then ret tt else
  call (Call.requestForegroundPermissionsAsync permission) ;;
  if negb (is_granted permission)
  then call (Call.console_warn "Location permission not granted")
  else
    call Call.watchPositionAsync ;;
    set_locationWatcher (Some Live) ;;
    call (Call.setUpdateInterval 10) ;;
    call Call.addListener ;;
    set_accelerometerSub (Some Live).

(** The body of the effect.  The timer is armed while [setupSensors] is
    suspended at its first [await]; with both run to completion the store
    they leave is the same, and the calls of [setupSensors] are listed
    first. *)
Definition runEffect (permission : PermissionStatus) : M unit :=
  s <- get ;;
  set_effect (mkEffect true (logging s) (sessionId s) false) ;;
  setupSensors (logging s) permission ;;
  if logging s
  then
    call (Call.setInterval 1000) ;;
    set_effect (mkEffect true (logging s) (sessionId s) true)
  else ret tt.

(** [ref.current?.remove?.()] *)
Definition remove (which : Producer) (ref : option Subscription)
    (set : option Subscription -> M unit) : M unit :=
  match ref with
  | Some _ => call (Call.remove which) ;; set (Some Removed)
  | None => ret tt
  end.

(** The function the effect returns. *)
Definition cleanup : M unit :=
  s <- get ;;
  set_effect (mkEffect false (closure_logging (effect s))
                (closure_sessionId (effect s)) (intervalId (effect s))) ;;
  remove motion (accelerometerSub s) set_accelerometerSub ;;
  remove position (locationWatcher s) set_locationWatcher ;;
  call Call.clearInterval ;;
  s <- get ;;
  set_effect (mkEffect false (closure_logging (effect s))
                (closure_sessionId (effect s)) false).

(** The render after a handler: the effect's dependency list is
    [[logging]], so it is cleaned up and run again exactly when [logging]
    differs from the value its last run saw. *)
Definition commit (permission : PermissionStatus) : M unit :=
  s <- get ;;
  if Bool.eqb (logging s) (closure_logging (effect s)) then ret tt
  else cleanup ;; runEffect permission.

(** What [startNew] awaits: the two [new Date()], whether the parent
    document is written, the permission answer and the current position. *)
Record StartNewEnv := mkStartNewEnv {
  today : JS.Date;
  createdAt : JS.Date;
  parentWritten : bool;
  permission : PermissionStatus;
  currentPosition : option LocationObject.t
}.

Definition startNew (vehicleType : string) (env : StartNewEnv) : M unit :=
  let formattedDate := formatDate (today env) in
  set_currentVehicleTypeRef vehicleType ;;
  created <-
    try_catch
      (setDoc formattedDate
         {| created_at := createdAt env;
            session_id := formattedDate;
            status := "active";
            device_speed_check := "enabled";
            session_vehicletype := vehicleType |}
         (parentWritten env) ;;
       call (Call.console_log
               ("[Session] Parent document created: " ++ formattedDate)) ;;
       ret true)
      (call (Call.console_error
               "[Session] Failed to create parent document:") ;;
       ret false) ;;
  if negb created then ret tt else
  setSessionId (Some formattedDate) ;;
  setLog (fun _ => []) ;;
  set_sampleBuffer [] ;;
  set_latestSpeed 0 ;;
  set_lastLocationRef None ;;
  call (Call.requestForegroundPermissionsAsync (permission env)) ;;
  (if is_granted (permission env)
   then
     loc <- getCurrentPositionAsync (currentPosition env) ;;
     set_latestLocation
       (LatLng.mk (LocationObject.latitude loc)
                  (LocationObject.longitude loc)) ;;
     set_latestSpeed
       (match LocationObject.speed loc with
        | Some v => if JS.truthy v then v * KMH_PER_MPS else 0
        | None => 0
        end)
   else ret tt) ;;
  setLogging true.

Definition pause : M unit :=
  setLogging false ;;
  set_sampleBuffer [].

Definition resume : M unit :=
  setLogging true.

Definition clear : M unit :=
  setLogging false ;;
  setLog (fun _ => []) ;;
  setSessionId None ;;
  set_sampleBuffer [] ;;
  set_latestSpeed 0 ;;
  set_lastLocationRef None ;;
  set_currentVehicleTypeRef "" ;;
  s <- get ;;
  (match accelerometerSub s with
   | Some _ => call (Call.remove motion) ;; set_accelerometerSub None
   | None => ret tt
   end) ;;
  s <- get ;;
  (match locationWatcher s with
   | Some _ => call (Call.remove position) ;; set_locationWatcher None
   | None => ret tt
   end).

(** ** Events *)

Inductive Command :=
| StartNew (vehicleType : string) (env : StartNewEnv)
| Pause
| Resume
| Clear.

(** What the platform delivers: a fix to the location watcher, a
    measurement to the accelerometer listener, a timer tick. *)
Inductive Callback :=
| LocationFix (location : LocationObject.t) (dateNow : float)
| Motion (data : AccelerometerData.t) (dateNow : float)
| Tick (dateNow : float) (resolves : bool).

Inductive Event :=
| Invoke (c : Command) (setupPermission : PermissionStatus)
| Deliver (cb : Callback).

Definition handler (c : Command) : M unit :=
  match c with
  | StartNew vehicleType env => startNew vehicleType env
  | Pause => pause
  | Resume => resume
  | Clear => clear
  end.

(** A handler that rejects leaves its promise unhandled; the store keeps
    what it had written. *)
Definition settled {A} (m : M A) : M unit :=
  fun s => match m s with (_, s1, t1) => (Returned tt, s1, t1) end.

(** A handler invoked from the UI, then the render it causes. *)
Definition invoke (c : Command) (setupPermission : PermissionStatus)
  : M unit :=
  settled (handler c) ;; commit setupPermission.

(** A callback reaches the component only through a live subscription or an
    armed timer. *)
Definition deliver (cb : Callback) : M unit :=
  s <- get ;;
  match cb with
  | LocationFix location dateNow =>
      match locationWatcher s with
      | Some Live => locationCallback location dateNow
      | _ => ret tt
      end
  | Motion data dateNow =>
      match accelerometerSub s with
      | Some Live => accelerometerListener data dateNow
      | _ => ret tt
      end
  | Tick dateNow resolves =>
      if intervalId (effect s)
      then uploadBatchToFirestore (closure_sessionId (effect s))
             dateNow resolves
      else ret tt
  end.

Definition step (e : Event) : M unit :=
  match e with
  | Invoke c setupPermission => invoke c setupPermission
  | Deliver cb => deliver cb
  end.

Fixpoint run (es : list Event) : M unit :=
  match es with
  | [] => ret tt
  | e :: es' => step e ;; run es'
  end.

(** The write attempts to the batch collection among some calls, and the
    documents that were created. *)
Definition persistence_calls (t : list Call.t) : list (string * BatchDoc) :=
  flat_map (fun c => match c with
                     | Call.addDoc sid doc _ => [(sid, doc)]
                     | _ => []
                     end) t.

Definition documents_created (t : list Call.t) : list (string * BatchDoc) :=
  flat_map (fun c => match c with
                     | Call.addDoc sid doc true => [(sid, doc)]
                     | _ => []
                     end) t.

(** The subscriptions asked for among some calls. *)
Definition subscriptions (t : list Call.t) : list Producer :=
  flat_map (fun c => match c with
                     | Call.watchPositionAsync => [position]
                     | Call.addListener => [motion]
                     | _ => []
                     end) t.

End Provider.

(** ** Notions used in the statements *)

(** The smoothing expression over the rationals, with weights [w] for the
    previous value and [a] for the new one. *)
Definition smooth_exact (w a previousSmoothed newRaw : Q) : Q :=
  (previousSmoothed * w + newRaw * a)%Q.

(** ** Rounding

    What the statements about the rounding of double-precision arithmetic
    are written with. *)

(** The rational [m * 2^e]. *)
Definition Qval (m e : Z) : Q := (inject_Z m * 2 ^ e)%Q.

(** The magnitude [y] under the sign bit [s]. *)
Definition signed (s : bool) (y : Q) : Q := ((if s then -1 else 1) * y)%Q.

(** Half the distance from 1 to the next double, half the least positive
    double, and the least power of two that no double reaches. *)
Definition unit_roundoff : Q := Eval vm_compute in (2 ^ (-53))%Q.

Definition half_tiny : Q := Eval vm_compute in (2 ^ (-1075))%Q.

Definition huge : Q := Eval vm_compute in (2 ^ 1024)%Q.

(** What is left of [m] after [k] shifts to the right: the quotient, the
    bit shifted out last and whether anything was shifted out before it. *)
Definition shifted (m : Z) (k : Z) (mrs : shr_record) : Prop :=
  (0 <= shr_m mrs /\
   exists t,
     m = shr_m mrs * 2 ^ k + (if shr_r mrs then 2 ^ (k - 1) else 0) + t /\
     0 <= t < 2 ^ (k - 1) /\
     (shr_s mrs = true <-> 0 < t))%Z.

(** The float of sign [s], mantissa [m'] and exponent [e'] that rounding
    returns: zero for no mantissa, infinite beyond the greatest
    exponent. *)
Definition rounded (s : bool) (m' e' : Z) : spec_float :=
  match m' with
  | Z0 => S754_zero s
  | Z.pos p =>
      if (e' <=? 971)%Z then S754_finite s p e' else S754_infinity s
  | Z.neg _ => S754_nan
  end.

(** A float of sign [s] and magnitude [y] that is zero or canonical. *)
Definition sized (s : bool) (y : Q) (r : spec_float) : Prop :=
  (r = S754_zero s /\ (y == 0)%Q) \/
  (exists p e, r = S754_finite s p e /\ (y == Qval (Z.pos p) e)%Q /\
               fexp prec emax (Z.pos (digits2_pos p) + e)%Z = e).

(** The document an upload from store [s] at time [dateNow] writes. *)
Definition batch_of (s : Store) (dateNow : float) : BatchDoc :=
  {| batch_timestamp := dateNow;
     data := sampleBuffer s;
     y_values := map LogEntry.y (sampleBuffer s);
     location := LatLng.mk (LatLng.latitude (latestLocation s))
                           (LatLng.longitude (latestLocation s));
     batch_speed := latestSpeed s;
     batch_vehicletype := currentVehicleTypeRef s |}.

(** The store is between events: the effect has run for the current value
    of [logging]. *)
Definition committed (s : Store) : Prop :=
  closure_logging (effect s) = logging s.

(** Not logging and no session. *)
Definition idle (s : Store) : Prop :=
  logging s = false /\ sessionId s = None /\ committed s.

Definition is_startNew (c : Command) : bool :=
  match c with
  | StartNew _ _ => true
  | _ => false
  end.

Definition starts_session (e : Event) : bool :=
  match e with
  | Invoke c _ => is_startNew c
  | Deliver _ => false
  end.

(** ** Values used in worked examples *)

(** A stand-in engine: the first terms of the series of each function. *)
Definition seriesMath : JS.MathLib :=
  JS.mkMath (fun a => a - a * a * a / 6)
            (fun a => 1 - a * a / 2)
            (fun b a => b / a).

Definition origin : LastLocation.t := LastLocation.mk 0 0 1000.

Definition morning : JS.Date := JS.mkDate 2025 0 7 9 30 5.

(** A fix reporting 10 m/s. *)
Definition moving : LocationObject.t :=
  LocationObject.mk 3 101 (Some 10) 1000.

Definition bump : AccelerometerData.t := AccelerometerData.mk 0 1 0.

Definition env_ok : StartNewEnv :=
  mkStartNewEnv morning morning true granted (Some moving).

Definition env_denied : StartNewEnv :=
  mkStartNewEnv morning morning true denied None.

Definition env_unwritten : StartNewEnv :=
  mkStartNewEnv morning morning false granted (Some moving).

(** A session started while standing still. *)
Definition env_parked : StartNewEnv :=
  mkStartNewEnv morning morning true granted
    (Some (LocationObject.mk 3 101 None 500)).

(** A session started in a car, one sample accepted and not yet uploaded. *)
Definition recording : Store :=
  exec (run seriesMath [Invoke (StartNew "car" env_ok) granted;
                        Deliver (Motion bump 2000)]) mounted.

(** [resume] pressed with no session started, then one fix and one
    sample. *)
Definition resumed_idle : Store :=
  exec (run seriesMath [Invoke Resume granted;
                        Deliver (LocationFix moving 1000);
                        Deliver (Motion bump 2000)]) mounted.

(** [n] fixes half a second apart whose supplied speed alternates between 0
    and 10 km/h (the first is 0 when [n] is even), each followed by one
    accelerometer sample. *)
Fixpoint alternating (n : nat) (t : float) : list Event :=
  match n with
  | O => []
  | S n' =>
      let v := if Nat.even n' then 10 / KMH_PER_MPS else 0 in
      Deliver (LocationFix (LocationObject.mk 3 101 (Some v) t) t)
      :: Deliver (Motion bump (t + 10))
      :: alternating n' (t + 500)
  end.

(** ** Notions used in the further properties *)

(** The effect's last run and the platform agree: the run is the current
    one, and an effect that ran with [logging] false left no live
    subscription and no armed timer. *)
Definition closure_consistent (s : Store) : Prop :=
  active (effect s) = true /\
  (closure_logging (effect s) = false ->
   accelerometerSub s <> Some Live /\
   locationWatcher s <> Some Live /\
   intervalId (effect s) = false).

Definition consistent (s : Store) : Prop :=
  committed s /\ closure_consistent s.

(** The events that empty the log: [clear], and a [startNew] whose parent
    document is written. *)
Definition resets_log (e : Event) : bool :=
  match e with
  | Invoke (StartNew _ env) _ => parentWritten env
  | Invoke Clear _ => true
  | _ => false
  end.

(** The samples of the documents created among some calls, oldest first. *)
Definition uploaded (t : list Call.t) : list LogEntry.t :=
  flat_map (fun c => data (snd c)) (documents_created t).

(** The value [startNew] seeds [latestSpeed] with from the current
    position. *)
Definition seed_speed (loc : LocationObject.t) : float :=
  match LocationObject.speed loc with
  | Some v => if JS.truthy v then v * KMH_PER_MPS else 0
  | None => 0
  end.

Definition evening : JS.Date := JS.mkDate 2025 0 7 18 5 0.

(** A second start, later the same day, on a motorcycle. *)
Definition env_later : StartNewEnv :=
  mkStartNewEnv evening evening true granted (Some moving).

(** The parent document is written and the permission granted, but the
    position lookup rejects. *)
Definition env_lost : StartNewEnv :=
  mkStartNewEnv morning morning true granted None.

(** A date as the getters of a [Date] report it, with a four-digit year. *)
Definition calendar_date (d : JS.Date) : Prop :=
  (1000 <= JS.getFullYear d < 100 * 100)%nat /\
  (JS.getMonth d < 12)%nat /\
  (1 <= JS.getDate d <= 31)%nat /\
  (JS.getHours d < 24)%nat /\
  (JS.getMinutes d < 60)%nat /\
  (JS.getSeconds d < 60)%nat.

(** The character of a decimal digit. *)
Definition digit (k : nat) : Ascii.ascii := Ascii.ascii_of_nat (48 + k).

(** The character ["-"]. *)
Definition dash : Ascii.ascii := Ascii.ascii_of_nat 45.

Definition two_digits (n : nat) : string :=
  String (digit (n / 10)) (String (digit (n mod 10)) "").

Definition four_digits (n : nat) : string :=
  String (digit (n / 1000))
    (String (digit (n / 100 mod 10)) (two_digits (n mod 100))).

(** ** The accelerometer screen

    [src/app/(tabs)/accelerometer.tsx]: the screen that drives the
    provider.  Its own state is four pieces of React state; the values it
    charts are recomputed from the provider's [log] on every render. *)

Definition VEHICLE_OPTIONS : list string :=
  ["Hatchback/ Small Car (e.g. Myvi, Axia, Jazz)";
   "Sedan/ Normal car (e.g. City, Vios, Civic)";
   "SUV/ MPV (e.g. HR-V, X70, Alza)";
   "Pickup/ Light Truck (e.g. Hilux, Ford Ranger)";
   "Bus/ Lorry"].

(** [l.slice(-n)]: the last [n] elements, all of them when there are
    fewer. *)
Definition slice_last {A} (n : nat) (l : list A) : list A :=
  skipn (List.length l - n) l.

Definition recentLog (log : list LogEntry.t) : list LogEntry.t :=
  slice_last 50 log.

Definition chartDataPoints (log : list LogEntry.t) : list float :=
  if Nat.ltb 0 (List.length (recentLog log))
  then map LogEntry.y (recentLog log)
  else [0].

Definition chartLabels (log : list LogEntry.t) : list string :=
  map (fun _ => "") (chartDataPoints log).

(** [log.length > 0 ? log[log.length - 1].y : 0]; the index is in range
    whenever the first branch is taken. *)
Definition latestValue (log : list LogEntry.t) : float :=
  if Nat.ltb 0 (List.length log)
  then match nth_error log (List.length log - 1) with
       | Some d => LogEntry.y d
       | None => 0
       end
  else 0.

Record Screen := mkScreen {
  sessionStarted : bool;
  vehicleType : option string;
  showVehicleMenu : bool;
  showInstructionModal : bool
}.

Definition first_render : Screen := mkScreen false None false false.

(** What the screen asks of the platform beside what the provider does. *)
Inductive UiCall :=
| Alert_alert (title message : string)
| File_write (name : string) (content : list LogEntry.t)
| Sharing_shareAsync
| from_provider (c : Call.t).

(** What [exportLog] meets: whether the file can be written, whether
    sharing is available ([None] when asking rejects), whether the share
    sheet resolves, and the message of the error if something throws. *)
Record ExportEnv := mkExportEnv {
  written : bool;
  sharingAvailable : option bool;
  shared : bool;
  failure : string
}.

(** The controls of the screen.  The alert of the clear button carries the
    user's answer; the modal's "I'm Ready" carries what [startNew] will
    meet. *)
Inductive Press :=
| VehicleDropdown
| VehicleOption (index : nat)
| NewSession
| ModalCancel
| ModalReady (env : StartNewEnv)
| PauseResume
| ClearButton (confirmed : bool)
| ExportData (env : ExportEnv).

Record App := mkApp { screen : Screen; store : Store }.

Definition launched : App := mkApp first_render mounted.

(** A provider command issued by the screen, with the render it causes. *)
Definition command (c : Command) (perm : PermissionStatus) (a : App)
    (scr : Screen) : App * list UiCall :=
  match invoke c perm (store a) with
  | (_, s', t) => (mkApp scr s', map from_provider t)
  end.

Definition exportLog (env : ExportEnv) (log : list LogEntry.t)
  : list UiCall :=
  if Nat.eqb (List.length log) 0
  then [Alert_alert "No Data" "Please start a session first."]
  else
    if written env
    then
      File_write "vibration_log.json" log ::
      match sharingAvailable env with
      | Some true =>
          Sharing_shareAsync ::
          (if shared env then []
           else [Alert_alert "Export Failed" (failure env)])
      | Some false =>
          [Alert_alert "Not Supported"
             "Your device doesn't support sharing."]
      | None => [Alert_alert "Export Failed" (failure env)]
      end
    else [Alert_alert "Export Failed" (failure env)].

(** One press.  A control that is not rendered, or is disabled, does
    nothing.  A press runs to completion: the command it issues to the
    provider, [startNew] included, has settled before the next event (the
    source does not wait for [startNew]; a press that arrives while it is
    suspended is outside this model). *)
Definition press (p : Press) (perm : PermissionStatus) (a : App)
  : App * list UiCall :=
  let scr := screen a in
  match p with
  | VehicleDropdown =>
      (mkApp (mkScreen (sessionStarted scr) (vehicleType scr)
                (negb (showVehicleMenu scr)) (showInstructionModal scr))
             (store a), [])
  | VehicleOption index =>
      if showVehicleMenu scr
      then match nth_error VEHICLE_OPTIONS index with
           | Some opt =>
               (mkApp (mkScreen (sessionStarted scr) (Some opt) false
                         (showInstructionModal scr)) (store a), [])
           | None => (a, [])
           end
      else (a, [])
  | NewSession =>
      match vehicleType scr with
      | Some v =>
          if JS.truthy_string v
          then (mkApp (mkScreen (sessionStarted scr) (vehicleType scr)
                         (showVehicleMenu scr) true) (store a), [])
          else (a, [Alert_alert "Select Vehicle"
                      "Please choose a vehicle type first."])
      | None => (a, [Alert_alert "Select Vehicle"
                       "Please choose a vehicle type first."])
      end
  | ModalCancel =>
      if showInstructionModal scr
      then (mkApp (mkScreen (sessionStarted scr) (vehicleType scr)
                     (showVehicleMenu scr) false) (store a), [])
      else (a, [])
  | ModalReady env =>
      if showInstructionModal scr
      then
        match vehicleType scr with
        | Some v =>
            if JS.truthy_string v
            then command (StartNew v env) perm a
                   (mkScreen true (vehicleType scr)
                      (showVehicleMenu scr) false)
            else (mkApp (mkScreen (sessionStarted scr) (vehicleType scr)
                           (showVehicleMenu scr) false) (store a), [])
        | None =>
            (mkApp (mkScreen (sessionStarted scr) (vehicleType scr)
                      (showVehicleMenu scr) false) (store a), [])
        end
      else (a, [])
  | PauseResume =>
      if sessionStarted scr
      then command (if logging (store a) then Pause else Resume) perm a scr
      else (a, [])
  | ClearButton confirmed =>
      let asked :=
        Alert_alert "Clear Session"
          ("Are you sure you want to reset the screen? " ++
           "The previous data have been saved to cloud.") in
      if confirmed
      then
        match command Clear perm a
                (mkScreen false None (showVehicleMenu scr)
                   (showInstructionModal scr)) with
        | (a', t) => (a', asked :: t)
        end
      else (a, [asked])
  | ExportData env => (a, exportLog env (log (store a)))
  end.

(** What happens to the app: a press, or something the platform delivers
    to the provider. *)
Inductive AppEvent :=
| Pressed (p : Press) (setupPermission : PermissionStatus)
| Delivered (cb : Callback).

Section Screen.

Variable Math : JS.MathLib.

Definition app_step (e : AppEvent) (a : App) : App * list UiCall :=
  match e with
  | Pressed p perm => press p perm a
  | Delivered cb =>
      match deliver Math cb (store a) with
      | (_, s', t) => (mkApp (screen a) s', map from_provider t)
      end
  end.

Fixpoint app_run (es : list AppEvent) (a : App) : App * list UiCall :=
  match es with
  | [] => (a, [])
  | e :: es' =>
      match app_step e a with
      | (a1, t1) =>
          match app_run es' a1 with
          | (a2, t2) => (a2, (t1 ++ t2)%list)
          end
      end
  end.

End Screen.

(** The batch documents the provider asked to write among the calls of the
    app. *)
Definition app_batches (t : list UiCall) : list (string * BatchDoc) :=
  flat_map (fun c => match c with
                     | from_provider (Call.addDoc sid doc _) => [(sid, doc)]
                     | _ => []
                     end) t.

(** What holds of the app between events, however it got there. *)
Definition tagged (a : App) : Prop :=
  consistent (store a) /\
  (forall v, vehicleType (screen a) = Some v -> In v VEHICLE_OPTIONS) /\
  (logging (store a) = true -> sessionStarted (screen a) = true) /\
  (sessionStarted (screen a) = true ->
   In (currentVehicleTypeRef (store a)) VEHICLE_OPTIONS) /\
  Forall (fun e => In (LogEntry.vehicletype e) VEHICLE_OPTIONS)
    (log (store a)).

(** What ECMAScript fixes of the engine's functions at zero:
    [Math.sin(+0)] and [Math.atan2(+0, 1)] are [+0]. *)
Definition exact_at_zero (Math : JS.MathLib) : Prop :=
  JS.sin Math 0 = 0 /\ JS.atan2 Math 0 1 = 0.

(** [Math.max(...numbers)] as ECMAScript defines it: a NaN among the
    numbers makes the result NaN; otherwise the highest seen so far,
    starting from [-Infinity], is replaced by a greater number, and [-0] by
    [+0]. *)
Definition is_pos_zero (v : float) : bool :=
  match classify v with FloatClass.PZero => true | _ => false end.

Definition is_neg_zero (v : float) : bool :=
  match classify v with FloatClass.NZero => true | _ => false end.

Fixpoint max_from (highest : float) (numbers : list float) : float :=
  match numbers with
  | [] => highest
  | number :: rest =>
      if is_nan number then nan
      else if is_pos_zero number && is_neg_zero highest
           then max_from number rest
      else if highest <? number then max_from number rest
      else max_from highest rest
  end.

Definition Math_max (numbers : list float) : float :=
  max_from neg_infinity numbers.

(** *** What a render computes

    The engine accepts only so many arguments in one call: spreading a
    longer array into a call throws a [RangeError].  The bound is the
    engine's, not the program's, and the log is never pruned. *)

Section Engine.

Variable maxArguments : nat.

(** [f(...numbers)] *)
Definition call_spread {A} (f : list float -> A) (numbers : list float)
  : Outcome A :=
  if Nat.leb (List.length numbers) maxArguments
  then Returned (f numbers)
  else Thrown.

(** [Math.max(...log.map((d) => d.y), 0)], the "Maximum" of the screen. *)
Definition maxValue (log : list LogEntry.t) : Outcome float :=
  call_spread Math_max (map LogEntry.y log ++ [0])%list.

(** What the returned JSX is given: the chart's [labels] and [data], and
    the two figures under it, [maxValue] and [latestValue]. *)
Record Rendered := mkRendered {
  chart_labels : list string;
  chart_data : list float;
  shown_maxValue : float;
  shown_latestValue : float
}.

(** The body of the component down to its [return], in the order of the
    source; a throw aborts the render and the JSX is given nothing. *)
Definition render (log : list LogEntry.t) : Outcome Rendered :=
  let chartDataPoints := chartDataPoints log in
  let chartLabels := chartLabels log in
  match maxValue log with
  | Returned maxValue =>
      let latestValue := latestValue log in
      Returned (mkRendered chartLabels chartDataPoints maxValue latestValue)
  | Thrown => Thrown
  end.

End Engine.

(** A key on which the order among numbers is the lexicographic one. *)
Definition order_key (f : spec_float) : Z * Z * Z :=
  match f with
  | S754_infinity true => (-2, 0, 0)%Z
  | S754_finite true m e => (-1, - e, - Z.pos m)%Z
  | S754_zero _ => (0, 0, 0)%Z
  | S754_nan => (0, 0, 0)%Z
  | S754_finite false m e => (1, e, Z.pos m)%Z
  | S754_infinity false => (2, 0, 0)%Z
  end.

Definition key_le (a b : Z * Z * Z) : Prop :=
  match a, b with
  | (c1, e1, m1), (c2, e2, m2) =>
      (c1 < c2 \/ (c1 = c2 /\ (e1 < e2 \/ (e1 = e2 /\ m1 <= m2))))%Z
  end.

Definition key_lt (a b : Z * Z * Z) : Prop :=
  match a, b with
  | (c1, e1, m1), (c2, e2, m2) =>
      (c1 < c2 \/ (c1 = c2 /\ (e1 < e2 \/ (e1 = e2 /\ m1 < m2))))%Z
  end.

(** ** A tick in two halves

    [uploadBatchToFirestore] suspends once, at [await addDoc(...)].  What
    it has decided by then is the pending write, if any; the document is
    taken to be read from its argument when [addDoc] is called.  What it
    does when the write settles is the rest of the [try] or the [catch]. *)

Definition upload_begin (sessionId : option string) (dateNow : float)
    (s : Store) : option (string * BatchDoc) :=
  match sessionId with
  | None => None
  | Some sid =>
      if negb (JS.truthy_string sid) then None
      else if Nat.eqb (List.length (sampleBuffer s)) 0 then None
      else Some (sid, batch_of s dateNow)
  end.

Definition upload_settle (pending : string * BatchDoc) (resolves : bool)
  : M unit :=
  try_catch
    (addDoc (fst pending) (snd pending) resolves ;;
     s <- get ;;
     call (Call.console_log
             ("Uploaded batch of " ++
              JS.String_ (List.length (sampleBuffer s)) ++
              " samples to Firestore")) ;;
     set_sampleBuffer [])
    (call (Call.console_warn "Failed to upload batch:")).

Definition is_tick (cb : Callback) : bool :=
  match cb with
  | Tick _ _ => true
  | _ => false
  end.

(** ** A start in two halves

    [startNew] suspends first at [await setDoc(...)], when it has assigned
    the vehicle type and asked for the parent document to be written.
    What it does once the write has settled is the rest of the function,
    taken to run without another handler in between. *)

Definition startNew_begin (vehicleType : string) (env : StartNewEnv)
  : M unit :=
  let formattedDate := formatDate (today env) in
  set_currentVehicleTypeRef vehicleType ;;
  call (Call.setDoc formattedDate
          {| created_at := createdAt env;
             session_id := formattedDate;
             status := "active";
             device_speed_check := "enabled";
             session_vehicletype := vehicleType |}
          (parentWritten env)).

Definition startNew_settle (env : StartNewEnv) : M unit :=
  let formattedDate := formatDate (today env) in
  created <-
    try_catch
      ((if parentWritten env then ret tt else throw) ;;
       call (Call.console_log
               ("[Session] Parent document created: " ++ formattedDate)) ;;
       ret true)
      (call (Call.console_error
               "[Session] Failed to create parent document:") ;;
       ret false) ;;
  if negb created then ret tt else
  setSessionId (Some formattedDate) ;;
  setLog (fun _ => []) ;;
  set_sampleBuffer [] ;;
  set_latestSpeed 0 ;;
  set_lastLocationRef None ;;
  call (Call.requestForegroundPermissionsAsync (permission env)) ;;
  (if is_granted (permission env)
   then
     loc <- getCurrentPositionAsync (currentPosition env) ;;
     set_latestLocation
       (LatLng.mk (LocationObject.latitude loc)
                  (LocationObject.longitude loc)) ;;
     set_latestSpeed
       (match LocationObject.speed loc with
        | Some v => if JS.truthy v then v * KMH_PER_MPS else 0
        | None => 0
        end)
   else ret tt) ;;
  setLogging true.

(** * Properties *)

(** ** Distance and speed *)

Example formatDate_example :
  formatDate (JS.mkDate 2025 0 7 9 30 5) = "2025-01-07-09-30-05".
Proof. reflexivity. Qed.

Example smooth_0_10 : smooth 0 10 = 8.
Proof. reflexivity. Qed.

(** A time difference that is at most zero is not positive (a NaN is
    neither). *)
Lemma leb_zero_not_pos (d : float) : (d <=? 0) = true -> (0 <? d) = false.
Proof.
  rewrite leb_spec, ltb_spec.
  change (Prim2SF 0) with (S754_zero false).
  unfold SFleb, SFltb.
  destruct (Prim2SF d) as [sg | sg | | sg m e]; try destruct sg; cbn;
    congruence.
Qed.

Lemma not_supplied_falls_back Math speed last latitude longitude timestamp :
  speed_supplied speed = false ->
  currentSpeedKmh Math speed last latitude longitude timestamp =
  currentSpeedKmh Math None last latitude longitude timestamp.
Proof.
  destruct speed as [v|]; [cbn; intros ->|]; reflexivity.
Qed.

(** C8: the speed derived from a location fix.  A supplied non-negative raw
    speed is multiplied by 3.6; otherwise, with a previous fix and a positive
    time difference, it is the haversine distance divided by the time
    difference, times 3.6; otherwise, with a time difference at most zero or
    without a previous fix, it is 0. *)
Theorem derived_speed Math speed last latitude longitude timestamp :
  (forall v, speed = Some v -> (0 <=? v) = true ->
     currentSpeedKmh Math speed last latitude longitude timestamp
     = v * KMH_PER_MPS) /\
  (speed_supplied speed = false ->
   forall prev, last = Some prev ->
     (0 <? timeDiffSeconds timestamp prev) = true ->
     currentSpeedKmh Math speed last latitude longitude timestamp
     = getDistanceFromLatLonInMeters Math
         (LastLocation.lat prev) (LastLocation.lng prev) latitude longitude
       / timeDiffSeconds timestamp prev * KMH_PER_MPS) /\
  (speed_supplied speed = false ->
   forall prev, last = Some prev ->
     (timeDiffSeconds timestamp prev <=? 0) = true ->
     currentSpeedKmh Math speed last latitude longitude timestamp = 0) /\
  (speed_supplied speed = false ->
   last = None ->
   currentSpeedKmh Math speed last latitude longitude timestamp = 0).
Proof.
  repeat split.
  - intros v -> Hv. unfold currentSpeedKmh. now rewrite Hv.
  - intros Hs prev -> Hd. rewrite not_supplied_falls_back by exact Hs.
    unfold currentSpeedKmh. now rewrite Hd.
  - intros Hs prev -> Hd. rewrite not_supplied_falls_back by exact Hs.
    unfold currentSpeedKmh. now rewrite (leb_zero_not_pos _ Hd).
  - intros Hs ->. now rewrite not_supplied_falls_back by exact Hs.
Qed.

Lemma derived_speed_witness :
  currentSpeedKmh seriesMath (Some 10) (Some origin) 0 1 2000
  = 10 * KMH_PER_MPS /\
  currentSpeedKmh seriesMath (Some (-1)) (Some origin) 0 1 2000
  = getDistanceFromLatLonInMeters seriesMath 0 0 0 1
    / timeDiffSeconds 2000 origin * KMH_PER_MPS /\
  currentSpeedKmh seriesMath None (Some origin) 0 1 500 = 0 /\
  currentSpeedKmh seriesMath None None 0 1 2000 = 0.
Proof.
  split; [| split; [| split]].
  - apply (proj1 (derived_speed seriesMath (Some 10) (Some origin) 0 1 2000)
             10); reflexivity.
  - apply (proj1 (proj2
             (derived_speed seriesMath (Some (-1)) (Some origin) 0 1 2000))
             eq_refl origin); reflexivity.
  - apply (proj1 (proj2 (proj2
             (derived_speed seriesMath None (Some origin) 0 1 500)))
             eq_refl origin); reflexivity.
  - apply (proj2 (proj2 (proj2
             (derived_speed seriesMath None None 0 1 2000))));
      reflexivity.
Defined.

(** The location callback stores the smoothed derived speed, retains the
    fix, and touches neither the buffer nor the log. *)
Lemma locationCallback_updates Math (location : LocationObject.t)
    (dateNow : float) (s : Store) :
  let s' := exec (locationCallback Math location dateNow) s in
  let timestamp := JS.or (LocationObject.timestamp location) dateNow in
  latestSpeed s'
  = smooth (latestSpeed s)
      (currentSpeedKmh Math (LocationObject.speed location)
         (lastLocationRef s) (LocationObject.latitude location)
         (LocationObject.longitude location) timestamp) /\
  lastLocationRef s'
  = Some (LastLocation.mk (LocationObject.latitude location)
            (LocationObject.longitude location) timestamp) /\
  sampleBuffer s' = sampleBuffer s /\ log s' = log s /\
  calls (locationCallback Math location dateNow) s = [].
Proof. repeat split. Qed.

Example smooth_fixed_at_0_5_10 :
  smooth 0 0 = 0 /\ smooth 5 5 = 5 /\ smooth 10 10 = 10.
Proof. repeat split. Qed.

(** C9, as stated, fails: with previous value and new sample both 6.2 (the
    double [0x1.8cccccccccccdp+2]) the step yields 6.200000000000001, which
    is not equal to 6.2. *)
Lemma smooth_6_2_is_not_fixed :
  smooth 0x1.8cccccccccccdp+2 0x1.8cccccccccccdp+2 = 0x1.8cccccccccccep+2 /\
  (smooth 0x1.8cccccccccccdp+2 0x1.8cccccccccccdp+2 =? 0x1.8cccccccccccdp+2)
  = false.
Proof. split; reflexivity. Qed.

(** The two weights of the step, [1 - 0.8] and [0.8] as computed in double
    precision, are finite and sum to exactly one, so in exact arithmetic
    every value is a fixed point of the step. *)
Lemma smooth_fixed_point_exact :
  exists w a : Q,
    exact (1 - SMOOTHING_FACTOR) = Some w /\
    exact SMOOTHING_FACTOR = Some a /\
    forall v : Q, (smooth_exact w a v v == v)%Q.
Proof.
  eexists. eexists.
  split; [vm_compute; reflexivity |].
  split; [vm_compute; reflexivity |].
  intro v. unfold smooth_exact.
  rewrite <- Qmult_plus_distr_r.
  rewrite <- (Qmult_1_r v) at 2.
  apply Qmult_comp; [reflexivity | reflexivity].
Qed.

(** ** Rounding in the smoothing step *)

(** The operations on doubles are those of [SpecFloat] at precision 53:
    each rounds the exact result to nearest.  What follows derives, from
    their definitions, how far a rounded product and a rounded sum of
    same-signed numbers can be from the exact one. *)

Section Rounding.

Local Open Scope Z_scope.

Lemma fexp_eq (x : Z) : fexp prec emax x = Z.max (x - 53) (-1074).
Proof. reflexivity. Qed.

(** Linear arithmetic with the powers of two taken as unknowns. *)
Ltac abs_pow :=
  change (2 ^ 52) with 4503599627370496 in *;
  change (2 ^ 53) with 9007199254740992 in *;
  change (2 ^ 54) with 18014398509481984 in *;
  repeat match goal with
  | |- context [Z.pow 2 ?k] =>
      let P := fresh "P" in set (P := Z.pow 2 k) in *; clearbody P
  | H : context [Z.pow 2 ?k] |- _ =>
      let P := fresh "P" in set (P := Z.pow 2 k) in *; clearbody P
  end.

Ltac plia := abs_pow; lia.
Ltac pnia := abs_pow; nia.

Lemma iter_pos_nat {A} (f : A -> A) (p : positive) (x : A) :
  SpecFloat.iter_pos f p x = Nat.iter (Pos.to_nat p) f x.
Proof.
  revert x. induction p as [p IH | p IH |]; intro x;
    cbn [SpecFloat.iter_pos].
  - rewrite !IH, Pos2Nat.inj_xI.
    replace (S (2 * Pos.to_nat p))%nat
      with (Pos.to_nat p + (Pos.to_nat p + 1))%nat by lia.
    rewrite !Nat.iter_add. reflexivity.
  - rewrite !IH, Pos2Nat.inj_xO.
    replace (2 * Pos.to_nat p)%nat
      with (Pos.to_nat p + Pos.to_nat p)%nat by lia.
    rewrite Nat.iter_add. reflexivity.
  - reflexivity.
Qed.

Lemma shr_1_spec (m : Z) (r s : bool) :
  0 <= m ->
  shr_1 (Build_shr_record m r s)
  = Build_shr_record (Z.div2 m) (Z.odd m) (r || s).
Proof.
  intros Hm. destruct m as [| p | p]; [reflexivity | | lia].
  destruct p; reflexivity.
Qed.

Lemma shr_iter (m : Z) (k : nat) :
  0 <= m ->
  shifted m (Z.of_nat (S k))
    (Nat.iter (S k) shr_1 (Build_shr_record m false false)).
Proof.
  intros Hm. induction k as [| k IH].
  - cbn [Nat.iter]. rewrite shr_1_spec by exact Hm.
    split; [cbn [shr_m]; pose proof (Z.div2_odd m) as H;
            destruct (Z.odd m); cbn [Z.b2z] in H; lia|].
    exists 0. cbn [shr_m shr_r shr_s orb].
    change (2 ^ Z.of_nat 1) with 2. change (2 ^ (Z.of_nat 1 - 1)) with 1.
    pose proof (Z.div2_odd m) as H. destruct (Z.odd m); cbn [Z.b2z] in H;
      repeat split; try lia; discriminate.
  - change (Nat.iter (S (S k)) shr_1 ?x)
      with (shr_1 (Nat.iter (S k) shr_1 x)).
    destruct (Nat.iter (S k) shr_1 (Build_shr_record m false false))
      as [q r s].
    destruct IH as [Hq [t [Hm' [Ht Hs]]]]. cbn [shr_m shr_r shr_s] in *.
    rewrite shr_1_spec by exact Hq.
    replace (Z.of_nat (S (S k))) with (Z.of_nat (S k) + 1) by lia.
    unfold shifted.
    replace (Z.of_nat (S k) + 1 - 1) with (Z.of_nat (S k)) by lia.
    assert (Hk : 1 <= Z.of_nat (S k)) by lia.
    set (K := Z.of_nat (S k)) in *.
    assert (HP : 2 ^ K = 2 * 2 ^ (K - 1)).
    { replace K with (Z.succ (K - 1)) at 1 by lia.
      apply Z.pow_succ_r. lia. }
    assert (HP' : 2 ^ (K + 1) = 2 * 2 ^ K) by (apply Z.pow_succ_r; lia).
    pose proof (Z.div2_odd q) as Hd.
    split; [cbn [shr_m]; destruct (Z.odd q); cbn [Z.b2z] in Hd; lia|].
    exists ((if r then 2 ^ (K - 1) else 0) + t).
    cbn [shr_m shr_r shr_s].
    set (P := 2 ^ (K - 1)) in *. rewrite HP', HP. rewrite HP in Hm'.
    assert (0 < P) by (apply Z.pow_pos_nonneg; lia).
    repeat split.
    + rewrite Hm'.
      destruct (Z.odd q), r; cbn [Z.b2z] in Hd; nia.
    + destruct r; lia.
    + destruct r; lia.
    + destruct r; cbn [orb]; intros Hrs; [lia | apply Hs in Hrs; lia].
    + destruct r; cbn [orb]; intros Hrs; [reflexivity | apply Hs; lia].
Qed.

Lemma shr_spec (m e : Z) (n : positive) :
  0 <= m ->
  exists mrs, shr (Build_shr_record m false false) e (Z.pos n)
              = (mrs, e + Z.pos n) /\ shifted m (Z.pos n) mrs.
Proof.
  intros Hm. eexists. split; [reflexivity |].
  rewrite iter_pos_nat.
  destruct (Pos2Nat.is_succ n) as [k Hk].
  rewrite Hk. replace (Z.pos n) with (Z.of_nat (S k)) by lia.
  now apply shr_iter.
Qed.

(** Rounding to nearest after [k] shifts is off by at most half a unit. *)
Lemma round_nearest_even_spec (m k : Z) (mrs : shr_record) :
  1 <= k -> shifted m k mrs ->
  let m' := round_nearest_even (shr_m mrs) (loc_of_shr_record mrs) in
  shr_m mrs <= m' <= shr_m mrs + 1 /\
  - 2 ^ (k - 1) <= m' * 2 ^ k - m <= 2 ^ (k - 1).
Proof.
  intros Hk [Hq [t [Hm [Ht Hs]]]].
  destruct mrs as [q r s]. cbn [shr_m shr_r shr_s] in *.
  assert (HP : 2 ^ k = 2 * 2 ^ (k - 1)).
  { replace k with (Z.succ (k - 1)) at 1 by lia.
    apply Z.pow_succ_r. lia. }
  set (P := 2 ^ (k - 1)) in *. rewrite HP in *.
  assert (s = false -> t = 0).
  { intros ->. destruct (Z.eq_dec t 0); [assumption|].
    assert (0 < t) by lia. apply Hs in H. discriminate. }
  assert (s = true -> 0 < t) by (intros ->; now apply Hs).
  destruct r, s; cbn [loc_of_shr_record round_nearest_even];
    try destruct (Z.even q); nia.
Qed.

Lemma digits_spec (m : positive) :
  2 ^ (Z.pos (digits2_pos m) - 1) <= Z.pos m < 2 ^ Z.pos (digits2_pos m).
Proof.
  induction m as [m IH | m IH |]; cbn [digits2_pos].
  - change (Z.pos m~1) with (2 * Z.pos m + 1). rewrite Pos2Z.inj_succ.
    replace (Z.succ (Z.pos (digits2_pos m)) - 1)
      with (Z.succ (Z.pos (digits2_pos m) - 1)) by plia.
    rewrite !Z.pow_succ_r by plia. plia.
  - change (Z.pos m~0) with (2 * Z.pos m). rewrite Pos2Z.inj_succ.
    replace (Z.succ (Z.pos (digits2_pos m)) - 1)
      with (Z.succ (Z.pos (digits2_pos m) - 1)) by plia.
    rewrite !Z.pow_succ_r by plia. plia.
  - split; [reflexivity | reflexivity].
Qed.

Lemma digits_unique (m : positive) (d : Z) :
  2 ^ (d - 1) <= Z.pos m < 2 ^ d -> Z.pos (digits2_pos m) = d.
Proof.
  intros [Hl Hu]. pose proof (digits_spec m) as [Hl' Hu'].
  set (d' := Z.pos (digits2_pos m)) in *.
  assert (0 < d).
  { destruct (Z_lt_le_dec 0 d) as [|Hd]; [assumption|].
    assert (2 ^ d <= 2 ^ 0) by (apply Z.pow_le_mono_r; lia).
    change (2 ^ 0) with 1 in *. plia. }
  destruct (Z.lt_trichotomy d' d) as [Hlt | [Heq | Hgt]]; [| exact Heq |].
  - assert (2 ^ d' <= 2 ^ (d - 1)) by (apply Z.pow_le_mono_r; lia). plia.
  - assert (2 ^ d <= 2 ^ (d' - 1)) by (apply Z.pow_le_mono_r; lia). plia.
Qed.

Lemma pow2_pos (k : Z) : 0 <= k -> 0 < 2 ^ k.
Proof. intros. apply Z.pow_pos_nonneg; plia. Qed.

Lemma pow2_succ (k : Z) : 0 <= k -> 2 ^ (k + 1) = 2 * 2 ^ k.
Proof. intros. now apply Z.pow_succ_r. Qed.

Lemma binary_round_aux_spec (s : bool) (m : positive) (e : Z) :
  let d := Z.pos (digits2_pos m) in
  let ef := fexp prec emax (d + e) in
  e <= ef ->
  exists m' e' : Z,
    binary_round_aux prec emax s (Z.pos m) e loc_Exact = rounded s m' e' /\
    0 <= m' /\ ef <= e' /\
    (m' = 0 \/ fexp prec emax (Zdigits2 m' + e') = e') /\
    (e = ef -> m' * 2 ^ (e' - e) = Z.pos m) /\
    (e < ef ->
     - 2 ^ (ef - e - 1) <= m' * 2 ^ (e' - e) - Z.pos m <= 2 ^ (ef - e - 1)).
Proof.
  intros d ef Hn.
  pose proof (digits_spec m) as [Hdl Hdu]. fold d in Hdl, Hdu.
  assert (Hef : ef = Z.max (d + e - 53) (-1074)) by reflexivity.
  unfold binary_round_aux, shr_fexp.
  cbn [Zdigits2 shr_record_of_loc]. fold d. fold ef.
  destruct (ef - e) as [| n | n] eqn:En; [| | plia].
  - (* no shift *)
    assert (He : e = ef) by lia.
    cbn [shr shr_m loc_of_shr_record round_nearest_even Zdigits2].
    fold d. fold ef. rewrite En. cbn [shr shr_m].
    exists (Z.pos m), e. rewrite Z.sub_diag.
    split; [reflexivity |].
    repeat split; try lia.
    right. cbn [Zdigits2]. fold d. fold ef. lia.
  - (* shift by [n] *)
    destruct (shr_spec (Z.pos m) e n) as [mrs [-> Hsh]]; [plia |].
    assert (Hef' : e + Z.pos n = ef) by plia. rewrite Hef'.
    destruct (round_nearest_even_spec (Z.pos m) (Z.pos n) mrs)
      as [Hm1 Herr]; [plia | exact Hsh |].
    set (m1 := round_nearest_even (shr_m mrs) (loc_of_shr_record mrs)) in *.
    destruct Hsh as [Hq [t [Hm [Ht Hs]]]].
    set (q := shr_m mrs) in *.
    assert (HN : 0 < 2 ^ Z.pos n) by (apply pow2_pos; lia).
    assert (Hqm : q * 2 ^ Z.pos n <= Z.pos m < (q + 1) * 2 ^ Z.pos n).
    { assert (HP : 2 ^ Z.pos n = 2 * 2 ^ (Z.pos n - 1)).
      { replace (Z.pos n) with (Z.succ (Z.pos n - 1)) at 1 by plia.
        apply Z.pow_succ_r. plia. }
      destruct (shr_r mrs); pnia. }
    (* the quotient has at most 53 digits *)
    assert (Hq53 : q < 2 ^ 53).
    { destruct (Z_lt_le_dec q (2 ^ 53)) as [|Hge]; [assumption|].
      assert (2 ^ d <= 2 ^ (53 + Z.pos n)) by (apply Z.pow_le_mono_r; lia).
      rewrite Z.pow_add_r in H by plia. pnia. }
    replace (ef - e - 1) with (Z.pos n - 1) by plia.
    destruct (Z.eq_dec m1 0) as [Hz | Hnz].
    + (* rounded to zero *)
      rewrite Hz. cbn [Zdigits2].
      assert (Hn2 : fexp prec emax (0 + ef) - ef <= 0)
        by (rewrite fexp_eq; lia).
      exists 0, ef.
      split.
      { destruct (fexp prec emax (0 + ef) - ef); [reflexivity | lia |
          reflexivity]. }
      split; [plia |]. split; [plia |]. split; [left; reflexivity |].
      split; [intros; plia |]. intros _.
      rewrite Hz in Herr. rewrite Z.mul_0_l in *. plia.
    + assert (Hm1pos : 0 < m1) by plia.
      destruct m1 as [| p1 | p1] eqn:Ep1; [plia | | plia].
      cbn [Zdigits2].
      pose proof (digits_spec p1) as [Hd1l Hd1u].
      set (d1 := Z.pos (digits2_pos p1)) in *.
      destruct (Z.eq_dec (Z.pos p1) (2 ^ 53)) as [Hcarry | Hnc].
      * (* the mantissa overflowed into a 54th digit *)
        assert (Hd1 : d1 = 54).
        { apply digits_unique. rewrite Hcarry.
          change (54 - 1) with 53. split; [plia |].
          change (2 ^ 53 < 2 ^ 54). plia. }
        assert (Hq52 : q = 2 ^ 53 - 1) by plia.
        assert (Hefn : ef = d + e - 53).
        { destruct (Z_lt_le_dec (d + e - 53) ef) as [Hlt|]; [| plia].
          exfalso.
          assert (2 ^ d <= 2 ^ (52 + Z.pos n))
            by (apply Z.pow_le_mono_r; lia).
          rewrite Z.pow_add_r in H by plia.
          change (2 ^ 53) with (2 * 2 ^ 52) in Hq52. pnia. }
        assert (Hn2 : fexp prec emax (d1 + ef) - ef = 1)
          by (rewrite fexp_eq; lia).
        rewrite Hn2. cbn [shr SpecFloat.iter_pos]. rewrite Hcarry.
        exists (2 ^ 52), (ef + 1).
        split; [reflexivity |].
        split; [plia |]. split; [plia |].
        split; [right; change (Zdigits2 (2 ^ 52)) with 53;
                rewrite fexp_eq; lia |].
        replace (ef + 1 - e) with (Z.pos n + 1) by plia.
        rewrite pow2_succ by plia.
        split; [plia |]. intros _.
        rewrite Hcarry in Herr. change (2 ^ 53) with (2 * 2 ^ 52) in Herr.
        pnia.
      * assert (Hd1 : d1 <= 53).
        { destruct (Z_lt_le_dec 53 d1) as [Hlt|]; [| plia]. exfalso.
          assert (2 ^ 53 <= 2 ^ (d1 - 1)) by (apply Z.pow_le_mono_r; lia).
          plia. }
        assert (Hcanon : fexp prec emax (d1 + ef) = ef).
        { rewrite fexp_eq.
          destruct (Z_lt_le_dec (-1074) ef) as [Hnorm | Hsub]; [| plia].
          (* normal range: the quotient has exactly 53 digits *)
          assert (Hefn : ef = d + e - 53) by plia.
          assert (d1 = 53); [| plia].
          destruct (Z_lt_le_dec d1 53) as [Hlt|]; [exfalso | plia].
          assert (2 ^ d1 <= 2 ^ 52) by (apply Z.pow_le_mono_r; lia).
          assert (Z.pos n = d - 53) by plia.
          replace (d - 1) with (52 + Z.pos n) in Hdl by plia.
          rewrite Z.pow_add_r in Hdl by plia. pnia. }
        rewrite Hcanon, Z.sub_diag. cbn [shr shr_m].
        exists (Z.pos p1), ef.
        split; [reflexivity |].
        split; [plia |]. split; [plia |].
        split; [right; exact Hcanon |].
        replace (ef - e) with (Z.pos n) by plia.
        split; [plia |]. intros _. exact Herr.
Qed.

Local Open Scope Q_scope.

Lemma Qpow2_pos (e : Z) : 0 < 2 ^ e.
Proof. apply Qpower_0_lt. reflexivity. Qed.

Lemma Qpow2_add (a b : Z) : 2 ^ (a + b) == 2 ^ a * 2 ^ b.
Proof. apply Qpower_plus. discriminate. Qed.

Lemma inject_pow2 (k : Z) : (0 <= k)%Z -> inject_Z (2 ^ k) == 2 ^ k.
Proof. intros. now rewrite Zpower_Qpower. Qed.

Lemma Qval_shift (m e e' : Z) :
  (e <= e')%Z -> Qval (m * 2 ^ (e' - e)) e == Qval m e'.
Proof.
  intros H. unfold Qval.
  rewrite inject_Z_mult, inject_pow2 by lia.
  replace e' with ((e' - e) + e)%Z at 2 by lia.
  rewrite Qpow2_add. ring.
Qed.

Lemma Qval_nonneg (m e : Z) : (0 <= m)%Z -> 0 <= Qval m e.
Proof.
  intros H. unfold Qval. apply Qmult_le_0_compat.
  - rewrite Zle_Qle in H. exact H.
  - apply Qlt_le_weak, Qpow2_pos.
Qed.

Lemma Qval_le (m m' e : Z) : (m <= m')%Z -> Qval m e <= Qval m' e.
Proof.
  intros H. unfold Qval. apply Qmult_le_compat_r.
  - rewrite Zle_Qle in H. exact H.
  - apply Qlt_le_weak, Qpow2_pos.
Qed.

Lemma Qval_minus (m m' e : Z) : Qval (m - m') e == Qval m e - Qval m' e.
Proof.
  unfold Qval, Z.sub. rewrite inject_Z_plus, inject_Z_opp. ring.
Qed.

Lemma Qval_opp (m e : Z) : Qval (- m) e == - Qval m e.
Proof. unfold Qval. rewrite inject_Z_opp. ring. Qed.

Lemma Qval_pow2 (k e : Z) : (0 <= k)%Z -> Qval (2 ^ k) e == 2 ^ (k + e).
Proof.
  intros. unfold Qval. now rewrite inject_pow2, Qpow2_add.
Qed.

(** Half a unit in the last place of a number with [d] digits at exponent
    [e] is at most the relative plus the absolute rounding unit. *)
Lemma half_ulp_bound (m : positive) (e : Z) :
  let ef := fexp prec emax (Z.pos (digits2_pos m) + e) in
  2 ^ (ef - 1) <= unit_roundoff * Qval (Z.pos m) e + half_tiny.
Proof.
  intros ef. pose proof (digits_spec m) as [Hd _].
  set (d := Z.pos (digits2_pos m)) in *.
  assert (Hx : 0 <= Qval (Z.pos m) e) by (apply Qval_nonneg; lia).
  assert (Hef : ef = Z.max (d + e - 53) (-1074)) by reflexivity.
  destruct (Z_lt_le_dec (d + e - 53) (-1074)) as [Hsub | Hnorm].
  - replace ef with (-1074)%Z by lia.
    change (2 ^ (-1074 - 1)) with half_tiny.
    assert (0 <= unit_roundoff * Qval (Z.pos m) e).
    { apply Qmult_le_0_compat; [discriminate | exact Hx]. }
    lra.
  - replace (ef - 1)%Z with (-53 + ((d - 1) + e))%Z by lia.
    rewrite Qpow2_add.
    change (2 ^ (-53)) with unit_roundoff.
    assert (2 ^ (d - 1 + e) <= Qval (Z.pos m) e).
    { rewrite <- Qval_pow2 by lia. apply Qval_le. exact Hd. }
    assert (unit_roundoff * 2 ^ (d - 1 + e)
            <= unit_roundoff * Qval (Z.pos m) e).
    { rewrite !(Qmult_comm unit_roundoff).
      apply Qmult_le_compat_r; [assumption | discriminate]. }
    assert (0 <= half_tiny) by discriminate.
    lra.
Qed.

(** Rounding a positive number that needs no left shift: the result has the
    sign asked for, is zero or canonical, and is off by at most the
    relative plus the absolute rounding unit. *)
Lemma round_model (s : bool) (m : positive) (e : Z) :
  (e <= fexp prec emax (Z.pos (digits2_pos m) + e))%Z ->
  let x := Qval (Z.pos m) e in
  x * (1 + unit_roundoff) + half_tiny < huge ->
  exists y,
    sized s y (binary_round_aux prec emax s (Z.pos m) e loc_Exact) /\
    0 <= y /\
    Qabs (y - x) <= unit_roundoff * x + half_tiny.
Proof.
  intros Hn x Hx.
  destruct (binary_round_aux_spec s m e Hn)
    as (m' & e' & Hr & Hm' & Hef & Hcan & Hex & Herr).
  set (ef := fexp prec emax (Z.pos (digits2_pos m) + e)) in *.
  assert (Hee : (e <= e')%Z) by lia.
  assert (Hx0 : 0 <= x) by (apply Qval_nonneg; lia).
  assert (Hy0 : 0 <= Qval m' e') by (apply Qval_nonneg; lia).
  assert (Hb : Qabs (Qval m' e' - x) <= unit_roundoff * x + half_tiny).
  { destruct (Z.eq_dec e ef) as [He | He].
    - specialize (Hex He). rewrite <- (Qval_shift m' e e') by exact Hee.
      rewrite Hex. fold x.
      setoid_replace (x - x) with 0 by ring. cbn [Qabs Z.abs].
      assert (0 <= unit_roundoff * x).
      { apply Qmult_le_0_compat; [discriminate | exact Hx0]. }
      assert (0 <= half_tiny) by discriminate. lra.
    - assert (Hlt : (e < ef)%Z) by lia. specialize (Herr Hlt).
      rewrite <- (Qval_shift m' e e') by exact Hee.
      unfold x. rewrite <- Qval_minus.
      apply Qle_trans with (2 ^ (ef - 1)); [| apply half_ulp_bound].
      replace (ef - 1)%Z with ((ef - e - 1) + e)%Z by lia.
      rewrite <- Qval_pow2 by lia.
      apply Qabs_Qle_condition. split.
      + rewrite <- Qval_opp. apply Qval_le. lia.
      + apply Qval_le. lia. }
  exists (Qval m' e'). split; [| split; [exact Hy0 | exact Hb]].
  rewrite Hr. unfold rounded.
  destruct m' as [| p | p]; [| | lia].
  - left. split; [reflexivity |]. unfold Qval. ring.
  - right. destruct Hcan as [Hc | Hc]; [discriminate |].
    cbn [Zdigits2] in Hc.
    destruct (Z.leb_spec e' 971) as [Hle | Hgt].
    + exists p, e'. split; [reflexivity |]. split; [reflexivity | exact Hc].
    + exfalso.
      (* a canonical mantissa at such an exponent is at least 2^52 *)
      pose proof (digits_spec p) as [Hdl _].
      rewrite fexp_eq in Hc.
      assert (Hd : Z.pos (digits2_pos p) = 53%Z) by lia.
      rewrite Hd in Hdl. change (53 - 1)%Z with 52%Z in Hdl.
      assert (huge <= Qval (Z.pos p) e').
      { apply Qle_trans with (Qval (2 ^ 52) e').
        - rewrite Qval_pow2 by lia.
          change huge with (2 ^ 1024).
          apply Qpower_le_compat_l; [lia | discriminate].
        - apply Qval_le. exact Hdl. }
      apply Qabs_Qle_condition in Hb. lra.
Qed.

Lemma Qval_plus (m m' e : Z) : Qval (m + m') e == Qval m e + Qval m' e.
Proof. unfold Qval. rewrite inject_Z_plus. ring. Qed.

Lemma Qval_mult (m m' e e' : Z) :
  Qval (m * m') (e + e') == Qval m e * Qval m' e'.
Proof. unfold Qval. rewrite inject_Z_mult, Qpow2_add. ring. Qed.

Lemma digits_mono (a b : positive) :
  (Z.pos a <= Z.pos b)%Z ->
  (Z.pos (digits2_pos a) <= Z.pos (digits2_pos b))%Z.
Proof.
  intros H. pose proof (digits_spec a) as [Ha _].
  pose proof (digits_spec b) as [_ Hb].
  destruct (Z_le_gt_dec (Z.pos (digits2_pos a)) (Z.pos (digits2_pos b)))
    as [| Hgt]; [assumption | exfalso].
  assert (2 ^ Z.pos (digits2_pos b) <= 2 ^ (Z.pos (digits2_pos a) - 1))%Z
    by (apply Z.pow_le_mono_r; lia).
  plia.
Qed.

(** Multiplying by a normal number of sign [+]. *)
Lemma SFmul_model (s : bool) (m : positive) (e : Z) (mc : positive)
    (ec : Z) :
  Z.pos (digits2_pos mc) = 53%Z ->
  let x := Qval (Z.pos m) e * Qval (Z.pos mc) ec in
  x * (1 + unit_roundoff) + half_tiny < huge ->
  exists y,
    sized s y
      (SFmul prec emax (S754_finite s m e) (S754_finite false mc ec)) /\
    0 <= y /\
    Qabs (y - x) <= unit_roundoff * x + half_tiny.
Proof.
  intros Hc x Hx. cbn [SFmul]. rewrite xorb_false_r.
  assert (Hx' : x == Qval (Z.pos (m * mc)) (e + ec)).
  { unfold x. now rewrite Pos2Z.inj_mul, Qval_mult. }
  destruct (round_model s (m * mc) (e + ec)) as (y & Hs & Hy & Hb).
  - rewrite fexp_eq.
    assert (Z.pos (digits2_pos mc) <= Z.pos (digits2_pos (m * mc)))%Z.
    { apply digits_mono. rewrite Pos2Z.inj_mul. nia. }
    lia.
  - rewrite <- Hx'. exact Hx.
  - exists y. rewrite Hx'. auto.
Qed.

Lemma shl_iter (m d : positive) :
  Z.pos (Pos.iter xO m d) = (Z.pos m * 2 ^ Z.pos d)%Z.
Proof.
  induction d as [| d IH] using Pos.peano_ind.
  - cbn [Pos.iter]. change (2 ^ 1)%Z with 2%Z.
    change (Z.pos m~0) with (2 * Z.pos m)%Z. lia.
  - rewrite Pos.iter_succ, Pos2Z.inj_succ, Z.pow_succ_r by lia.
    change (Z.pos (Pos.iter xO m d)~0) with (2 * Z.pos (Pos.iter xO m d))%Z.
    rewrite IH. ring.
Qed.

Lemma shl_align_spec (m : positive) (e e' : Z) :
  (e' <= e)%Z ->
  Z.pos (fst (shl_align m e e')) = (Z.pos m * 2 ^ (e - e'))%Z.
Proof.
  intros H. unfold shl_align.
  destruct (e' - e)%Z as [| d | d] eqn:E; [| lia |].
  - replace (e - e')%Z with 0%Z by lia. cbn [fst]. change (2 ^ 0)%Z with 1%Z.
    lia.
  - cbn [fst]. rewrite shl_iter. f_equal. f_equal. lia.
Qed.

(** Adding two floats of the same sign. *)
Lemma SFadd_model (s : bool) (y1 y2 : Q) (r1 r2 : spec_float) :
  sized s y1 r1 -> sized s y2 r2 ->
  (y1 + y2) * (1 + unit_roundoff) + half_tiny < huge ->
  exists y,
    sized s y (SFadd prec emax r1 r2) /\
    0 <= y /\
    Qabs (y - (y1 + y2)) <= unit_roundoff * (y1 + y2) + half_tiny.
Proof.
  intros H1 H2 Hx.
  assert (Hself : forall y, 0 <= y ->
            Qabs (y - y) <= unit_roundoff * y + half_tiny).
  { intros y Hy. setoid_replace (y - y) with 0 by ring. cbn [Qabs Z.abs].
    unfold unit_roundoff, half_tiny. lra. }
  destruct H1 as [[-> Hy1] | (p1 & e1 & -> & Hy1 & Hc1)];
    destruct H2 as [[-> Hy2] | (p2 & e2 & -> & Hy2 & Hc2)].
  - exists 0. split; [| split; [lra |]].
    + left. split; [destruct s; reflexivity | reflexivity].
    + rewrite Hy1, Hy2. unfold unit_roundoff, half_tiny. cbn. lra.
  - exists y2.
    assert (0 <= y2) by (rewrite Hy2; apply Qval_nonneg; lia).
    split; [| split; [assumption |]].
    + right. exists p2, e2. destruct s; auto.
    + rewrite Hy1. setoid_replace (0 + y2) with y2 by ring. now apply Hself.
  - exists y1.
    assert (0 <= y1) by (rewrite Hy1; apply Qval_nonneg; lia).
    split; [| split; [assumption |]].
    + right. exists p1, e1. destruct s; auto.
    + rewrite Hy2. setoid_replace (y1 + 0) with y1 by ring. now apply Hself.
  - cbn [SFadd].
    set (ez := Z.min e1 e2).
    set (M1 := fst (shl_align p1 e1 ez)).
    set (M2 := fst (shl_align p2 e2 ez)).
    assert (HM1 : Z.pos M1 = (Z.pos p1 * 2 ^ (e1 - ez))%Z)
      by (apply shl_align_spec; lia).
    assert (HM2 : Z.pos M2 = (Z.pos p2 * 2 ^ (e2 - ez))%Z)
      by (apply shl_align_spec; lia).
    assert (Hsum : (cond_Zopp s (Z.pos M1) + cond_Zopp s (Z.pos M2))%Z
                   = cond_Zopp s (Z.pos (M1 + M2))).
    { destruct s; reflexivity. }
    rewrite Hsum.
    assert (Hnorm : binary_normalize prec emax
                      (cond_Zopp s (Z.pos (M1 + M2))) ez false
                    = binary_round prec emax s (M1 + M2) ez).
    { destruct s; reflexivity. }
    rewrite Hnorm. unfold binary_round.
    assert (Hx' : y1 + y2 == Qval (Z.pos (M1 + M2)) ez).
    { rewrite Pos2Z.inj_add, Qval_plus, HM1, HM2, !Qval_shift by lia.
      now rewrite Hy1, Hy2. }
    assert (Hef : (ez <= fexp prec emax
                          (Z.pos (digits2_pos (M1 + M2)) + ez))%Z).
    { assert (0 < 2 ^ (e1 - ez))%Z by (apply pow2_pos; lia).
      assert (0 < 2 ^ (e2 - ez))%Z by (apply pow2_pos; lia).
      rewrite fexp_eq in *.
      destruct (Z_le_gt_dec e1 e2).
      - assert (Z.pos (digits2_pos p1)
                <= Z.pos (digits2_pos (M1 + M2)))%Z.
        { apply digits_mono. rewrite Pos2Z.inj_add, HM1.
          replace (e1 - ez)%Z with 0%Z by lia. lia. }
        lia.
      - assert (Z.pos (digits2_pos p2)
                <= Z.pos (digits2_pos (M1 + M2)))%Z.
        { apply digits_mono. rewrite Pos2Z.inj_add, HM2.
          replace (e2 - ez)%Z with 0%Z by lia. lia. }
        lia. }
    assert (Hal : shl_align (M1 + M2) ez
                    (fexp prec emax (Z.pos (digits2_pos (M1 + M2)) + ez))
                  = ((M1 + M2)%positive, ez)).
    { unfold shl_align.
      destruct (fexp prec emax (Z.pos (digits2_pos (M1 + M2)) + ez) - ez)%Z
        eqn:E; [reflexivity | reflexivity | lia]. }
    rewrite Hal.
    destruct (round_model s (M1 + M2) ez Hef) as (y & Hs & Hy & Hb).
    + rewrite <- Hx'. exact Hx.
    + exists y. rewrite Hx'. auto.
Qed.

Lemma SF2Q_sized (s : bool) (y : Q) (r : spec_float) :
  sized s y r -> exists q, SF2Q r = Some q /\ q == signed s y.
Proof.
  intros [[-> Hy] | (p & e & -> & Hy & _)]; cbn [SF2Q]; eexists;
    (split; [reflexivity |]); unfold signed; rewrite Hy.
  - ring.
  - unfold Qval. ring.
Qed.

Lemma Qabs_signed (s : bool) (a b : Q) :
  Qabs (signed s a - signed s b) == Qabs (a - b).
Proof.
  unfold signed. destruct s.
  - setoid_replace (-1 * a - -1 * b) with (- (a - b)) by ring.
    apply Qabs_opp.
  - setoid_replace (1 * a - 1 * b) with (a - b) by ring. reflexivity.
Qed.

Lemma Qval_pos (m : positive) (e : Z) : 0 < Qval (Z.pos m) e.
Proof.
  unfold Qval. apply Qmult_lt_0_compat; [reflexivity | apply Qpow2_pos].
Qed.

(** C9, amended: the step returns [v] up to rounding.  For every finite [v]
    of magnitude at most 2^1023, with the previous value and the new sample
    both [v], the result is finite and differs from [v] by at most
    2^-51 |v| + 2^-1073, and it is zero when [v] is. *)
Theorem smooth_fixed_point_rounded (v : float) (q : Q) :
  exact v = Some q ->
  Qabs q <= 2 ^ 1023 ->
  exists r,
    exact (smooth v v) = Some r /\
    Qabs (r - q) <= Qabs q * 2 ^ (-51) + 2 ^ (-1073) /\
    (q == 0 -> r == 0).
Proof.
  unfold exact, smooth.
  rewrite add_spec, !mul_spec.
  change (Prim2SF (1 - SMOOTHING_FACTOR)%float)
    with (S754_finite false 7205759403792792 (-55)).
  change (Prim2SF SMOOTHING_FACTOR)
    with (S754_finite false 7205759403792794 (-53)).
  destruct (Prim2SF v) as [s | s | | s m e]; cbn [SF2Q]; try discriminate.
  - intros [= <-] _. exists 0. split; [destruct s; reflexivity |].
    split; [vm_compute; discriminate | reflexivity].
  - intros [= <-] Hq.
    set (x := Qval (Z.pos m) e).
    assert (Hq' : (if s then -1 else 1) * inject_Z (Z.pos m) * 2 ^ e
                  == signed s x).
    { unfold signed, x, Qval. ring. }
    assert (Hxpos : 0 < x) by apply Qval_pos.
    assert (Hx0 : 0 <= x) by (apply Qval_nonneg; lia).
    assert (Habs : Qabs (signed s x) == x).
    { unfold signed. destruct s.
      - setoid_replace (-1 * x) with (- x) by ring.
        rewrite Qabs_opp. now apply Qabs_pos.
      - setoid_replace (1 * x) with x by ring. now apply Qabs_pos. }
    assert (Hx : x <= 2 ^ 1023) by (now rewrite Hq', Habs in Hq).
    set (w := Qval 7205759403792792 (-55)).
    set (a := Qval 7205759403792794 (-53)).
    (* the two weights sum to one *)
    assert (Hwa : x * w + x * a == x).
    { setoid_replace (x * w + x * a) with (x * (w + a)) by ring.
      setoid_replace (w + a) with 1 by reflexivity. ring. }
    assert (Hw : 0 <= x * w)
      by (apply Qmult_le_0_compat; [assumption | discriminate]).
    assert (Ha : 0 <= x * a)
      by (apply Qmult_le_0_compat; [assumption | discriminate]).
    setoid_replace (2 ^ 1023) with (huge * (1 # 2)) in Hx
      by (vm_compute; reflexivity).
    (* both products, then their sum *)
    destruct (SFmul_model s m e 7205759403792792 (-55) eq_refl)
      as (y1 & Hs1 & Hy1 & Hb1).
    { fold x w. unfold unit_roundoff, half_tiny, huge in *. lra. }
    destruct (SFmul_model s m e 7205759403792794 (-53) eq_refl)
      as (y2 & Hs2 & Hy2 & Hb2).
    { fold x a. unfold unit_roundoff, half_tiny, huge in *. lra. }
    fold x w in Hb1. fold x a in Hb2.
    apply Qabs_Qle_condition in Hb1, Hb2.
    destruct (SFadd_model s y1 y2 _ _ Hs1 Hs2) as (y & Hs & Hy & Hb).
    { unfold unit_roundoff, half_tiny, huge in *. lra. }
    apply Qabs_Qle_condition in Hb.
    destruct (SF2Q_sized s y _ Hs) as (r & Hr & Hrq).
    exists r. split; [exact Hr |]. split.
    + rewrite Hrq, Hq', Qabs_signed, Habs.
      setoid_replace (2 ^ (-51)) with (4 * unit_roundoff)
        by (vm_compute; reflexivity).
      setoid_replace (2 ^ (-1073)) with (4 * half_tiny)
        by (vm_compute; reflexivity).
      apply Qabs_Qle_condition.
      unfold unit_roundoff, half_tiny, huge in *. lra.
    + intro H0. exfalso. rewrite Hq' in H0. unfold signed in H0.
      destruct s; lra.
Qed.

Lemma smooth_fixed_point_rounded_witness :
  exists q r,
    exact 0x1.8cccccccccccdp+2 = Some q /\
    Qabs q <= 2 ^ 1023 /\
    exact (smooth 0x1.8cccccccccccdp+2 0x1.8cccccccccccdp+2) = Some r /\
    Qabs (r - q) <= Qabs q * 2 ^ (-51) + 2 ^ (-1073).
Proof.
  assert (Hq : Qabs (6980579422424269 * 2 ^ (-50)) <= 2 ^ 1023)
    by (vm_compute; discriminate).
  destruct (smooth_fixed_point_rounded 0x1.8cccccccccccdp+2
              (1 * inject_Z 6980579422424269 * 2 ^ (-50)) eq_refl)
    as (r & Hr & Hb & _).
  - vm_compute. discriminate.
  - eexists. exists r. split; [reflexivity |].
    split; [vm_compute; discriminate |]. split; [exact Hr | exact Hb].
Defined.

End Rounding.

(** ** The motion callback *)

(** C4: a motion sample delivered while the latest smoothed speed is below
    5 km/h is discarded: the sample buffer and the log are left as they
    were (the listener changes nothing and calls nothing). *)
Theorem speed_gate_discards (s : Store) (data : AccelerometerData.t)
    (dateNow : float) :
  (latestSpeed s <? 5) = true ->
  sampleBuffer (exec (accelerometerListener data dateNow) s) = sampleBuffer s
  /\ log (exec (accelerometerListener data dateNow) s) = log s
  /\ exec (accelerometerListener data dateNow) s = s
  /\ calls (accelerometerListener data dateNow) s = [].
Proof.
  intro Hslow.
  assert (Hrun : accelerometerListener data dateNow s = (Returned tt, s, [])).
  { unfold accelerometerListener, bind, get.
    destruct (negb (active (effect s)) || negb (closure_logging (effect s)));
      [reflexivity |].
    now rewrite Hslow. }
  unfold exec, calls. rewrite Hrun. cbn. repeat split.
Qed.

(** Above the gate, and with the effect that installed the listener still
    current, the sample goes to the end of both the buffer and the log. *)
Lemma speed_gate_accepts (s : Store) (data : AccelerometerData.t)
    (dateNow : float) :
  active (effect s) = true -> closure_logging (effect s) = true ->
  (latestSpeed s <? 5) = false ->
  exists entry,
    LogEntry.y entry = AccelerometerData.y data /\
    LogEntry.speed entry = latestSpeed s /\
    sampleBuffer (exec (accelerometerListener data dateNow) s)
    = (sampleBuffer s ++ [entry])%list /\
    log (exec (accelerometerListener data dateNow) s)
    = (log s ++ [entry])%list.
Proof.
  intros Ha Hl Hfast.
  exists (LogEntry.mk (AccelerometerData.x data) (AccelerometerData.y data)
            (AccelerometerData.z data) dateNow
            (LatLng.latitude (latestLocation s))
            (LatLng.longitude (latestLocation s))
            (latestSpeed s) (JS.or_string (currentVehicleTypeRef s) "")).
  unfold exec, accelerometerListener, bind, get.
  rewrite Ha, Hl, Hfast. cbn. repeat split.
Qed.

Lemma speed_gate_discards_witness :
  let s := exec (invoke Resume granted) mounted in
  (latestSpeed s <? 5) = true /\
  sampleBuffer (exec (accelerometerListener
                        (AccelerometerData.mk 0 1 0) 1000) s)
  = sampleBuffer s.
Proof.
  split; [reflexivity |].
  apply (speed_gate_discards (exec (invoke Resume granted) mounted)
           (AccelerometerData.mk 0 1 0) 1000).
  reflexivity.
Defined.

(** Ten fixes alternating between 0 and 10 km/h, a sample after each: the
    five samples that follow a 10 km/h fix are kept, the others dropped. *)
Example alternating_speeds_gate :
  let s := exec (run seriesMath
                   (Invoke (StartNew "car" env_parked) granted
                    :: alternating 10 1000)) mounted in
  map LogEntry.timestamp (log s) = [1510; 2510; 3510; 4510; 5510] /\
  forallb (fun e => 5 <=? LogEntry.speed e) (log s) = true /\
  sampleBuffer s = log s.
Proof. vm_compute. repeat split. Qed.

(** ** Pause and clear *)

(** C6: after [pause] (and the render it causes) the sample buffer is empty
    whatever it held, and the log is what it was.  This holds from every
    store, so in particular from an active session. *)
Theorem pause_drops_buffer_keeps_log (s : Store) (perm : PermissionStatus) :
  sampleBuffer (exec (invoke Pause perm) s) = [] /\
  log (exec (invoke Pause perm) s) = log s /\
  logging (exec (invoke Pause perm) s) = false /\
  persistence_calls (calls (invoke Pause perm) s) = [].
Proof.
  destruct s as [lg lgg sid asub lw llr ll ls sb vt [act clg csid iid]].
  destruct clg, asub, lw; cbv; repeat split.
Qed.

(** C7, as stated, fails: [clear] does not reset all the state the
    provider owns.  After a session started at latitude 3, longitude 101,
    [clear] leaves these coordinates in [latestLocation], which held (0, 0)
    when the component was mounted. *)
Lemma clear_keeps_last_coordinates :
  latestLocation mounted = LatLng.mk 0 0 /\
  latestLocation (exec (invoke Clear granted) recording) = LatLng.mk 3 101 /\
  latestLocation (exec (invoke Clear granted) recording)
  <> latestLocation mounted.
Proof.
  split; [reflexivity |]. split; [vm_compute; reflexivity |].
  intro H. apply (f_equal (fun l => LatLng.latitude l =? 0)) in H.
  vm_compute in H. discriminate H.
Qed.

(** C7, amended: [clear] (and the render it causes), from every store,
    empties the log, sets [logging] to false and resets the buffer, the
    session id, the smoothed speed, the retained fix and the vehicle type;
    both subscription refs end up null.  It does not reset everything: the
    last known coordinates in [latestLocation] are left as they were. *)
Theorem clear_resets (s : Store) (perm : PermissionStatus) :
  let s' := exec (invoke Clear perm) s in
  log s' = [] /\
  logging s' = false /\
  sampleBuffer s' = [] /\
  sessionId s' = None /\
  latestSpeed s' = 0 /\
  lastLocationRef s' = None /\
  currentVehicleTypeRef s' = "" /\
  accelerometerSub s' = None /\
  locationWatcher s' = None /\
  latestLocation s' = latestLocation s.
Proof.
  destruct s as [lg lgg sid asub lw llr ll ls sb vt [act clg csid iid]].
  destruct clg, asub, lw; cbv; repeat split.
Qed.

(** ** The uploader *)

Lemma upload_no_session (dateNow : float) (resolves : bool) (s : Store) :
  uploadBatchToFirestore None dateNow resolves s = (Returned tt, s, []).
Proof. reflexivity. Qed.

Lemma upload_empty_buffer sessionId dateNow resolves (s : Store) :
  sampleBuffer s = [] ->
  uploadBatchToFirestore sessionId dateNow resolves s = (Returned tt, s, []).
Proof.
  intro Hb. unfold uploadBatchToFirestore.
  destruct sessionId as [sid|]; [| reflexivity].
  destruct (negb (JS.truthy_string sid)); [reflexivity |].
  unfold bind, get. now rewrite Hb.
Qed.

Lemma buffer_length_nonzero (s : Store) :
  sampleBuffer s <> [] -> Nat.eqb (List.length (sampleBuffer s)) 0 = false.
Proof. destruct (sampleBuffer s); [congruence | reflexivity]. Qed.

Lemma upload_resolved sid dateNow (s : Store) :
  JS.truthy_string sid = true -> sampleBuffer s <> [] ->
  uploadBatchToFirestore (Some sid) dateNow true s =
  (Returned tt, exec (set_sampleBuffer []) s,
   [Call.addDoc sid (batch_of s dateNow) true;
    Call.console_log ("Uploaded batch of " ++
                      JS.String_ (List.length (sampleBuffer s)) ++
                      " samples to Firestore")]).
Proof.
  intros Hsid Hb. unfold uploadBatchToFirestore.
  rewrite Hsid. cbn [negb]. unfold bind at 1. unfold get at 1.
  rewrite (buffer_length_nonzero s Hb). reflexivity.
Qed.

Lemma upload_rejected sid dateNow (s : Store) :
  JS.truthy_string sid = true -> sampleBuffer s <> [] ->
  uploadBatchToFirestore (Some sid) dateNow false s =
  (Returned tt, s,
   [Call.addDoc sid (batch_of s dateNow) false;
    Call.console_warn "Failed to upload batch:"]).
Proof.
  intros Hsid Hb. unfold uploadBatchToFirestore.
  rewrite Hsid. cbn [negb]. unfold bind at 1. unfold get at 1.
  rewrite (buffer_length_nonzero s Hb). reflexivity.
Qed.

(** C5, as stated, fails: after [resume] with no session started the timer
    ticks over a buffer of one sample, and the tick makes no persistence
    call and leaves the sample in the buffer (even though the write would
    have succeeded). *)
Lemma tick_with_samples_may_persist_nothing :
  List.length (sampleBuffer resumed_idle) = 1%nat /\
  persistence_calls
    (calls (deliver seriesMath (Tick 3000 true)) resumed_idle) = [] /\
  sampleBuffer (exec (deliver seriesMath (Tick 3000 true)) resumed_idle)
  = sampleBuffer resumed_idle.
Proof. split; [| split]; vm_compute; reflexivity. Qed.

(** C5, amended: a tick over an empty buffer makes no call at all and
    creates no document; a tick over a non-empty buffer, with a session id
    in the closure, makes exactly one persistence call, for a document
    under that session holding exactly the buffered samples (and their [y]
    values), and if that write succeeds the buffer is empty right after the
    tick and the document is created.  With no session id the tick does
    nothing; if the write fails the buffer is left as it was and no
    document is created. *)
Theorem uploader_tick sessionId dateNow resolves (s : Store) :
  let m := uploadBatchToFirestore sessionId dateNow resolves in
  (sampleBuffer s = [] -> calls m s = [] /\ exec m s = s) /\
  (sessionId = None -> calls m s = [] /\ exec m s = s) /\
  (forall sid, sessionId = Some sid -> JS.truthy_string sid = true ->
     sampleBuffer s <> [] ->
     (exists doc,
        persistence_calls (calls m s) = [(sid, doc)] /\
        data doc = sampleBuffer s /\
        y_values doc = map LogEntry.y (sampleBuffer s)) /\
     (resolves = true ->
        sampleBuffer (exec m s) = [] /\
        log (exec m s) = log s /\
        documents_created (calls m s) = [(sid, batch_of s dateNow)]) /\
     (resolves = false ->
        sampleBuffer (exec m s) = sampleBuffer s /\
        documents_created (calls m s) = [])).
Proof.
  cbv zeta. split; [| split].
  - intro Hb. unfold calls, exec.
    now rewrite (upload_empty_buffer _ _ _ _ Hb).
  - intros ->. split; reflexivity.
  - intros sid -> Hsid Hb. split; [| split].
    + exists (batch_of s dateNow). unfold calls.
      destruct resolves;
        [rewrite (upload_resolved _ _ _ Hsid Hb)
        | rewrite (upload_rejected _ _ _ Hsid Hb)];
        repeat split.
    + intros ->. unfold calls, exec.
      rewrite (upload_resolved _ _ _ Hsid Hb). repeat split.
    + intros ->. unfold calls, exec.
      rewrite (upload_rejected _ _ _ Hsid Hb). repeat split.
Qed.

Lemma uploader_tick_witness :
  (calls (uploadBatchToFirestore (Some "2025-01-07-09-30-05") 3000 true)
     mounted = []) /\
  sampleBuffer
    (exec (uploadBatchToFirestore (Some "2025-01-07-09-30-05") 3000 true)
       recording) = [].
Proof.
  split.
  - apply (proj1 (uploader_tick (Some "2025-01-07-09-30-05") 3000 true
                    mounted)).
    reflexivity.
  - apply (proj2 (proj2 (uploader_tick (Some "2025-01-07-09-30-05") 3000
                           true recording)) "2025-01-07-09-30-05");
      [reflexivity | reflexivity | vm_compute; discriminate | reflexivity].
Defined.

(** C3, as stated, fails: a tick whose write is rejected leaves the sample
    in the buffer, and the next tick sends that same sample again. *)
Lemma rejected_batch_is_sent_again :
  let failed := uploadBatchToFirestore (sessionId recording) 3000 false in
  let again := uploadBatchToFirestore (sessionId recording) 4000 true in
  sampleBuffer recording <> [] /\
  sampleBuffer (exec failed recording) = sampleBuffer recording /\
  map (fun c => data (snd c))
    (documents_created (calls again (exec failed recording)))
  = [sampleBuffer recording].
Proof.
  cbv zeta. split; [vm_compute; discriminate |].
  split; vm_compute; reflexivity.
Qed.

(** C3, amended: when the write of a batch is rejected, the rejection is
    caught and a warning is logged, nothing is thrown, and the store is left
    as it was: the samples stay in the buffer, and the next tick's write
    carries them again. *)
Theorem rejected_upload_keeps_buffer sid dateNow dateNow' resolves'
    (s : Store) :
  JS.truthy_string sid = true -> sampleBuffer s <> [] ->
  let failed := uploadBatchToFirestore (Some sid) dateNow false in
  let next := uploadBatchToFirestore (Some sid) dateNow' resolves' in
  outcome failed s = Returned tt /\
  calls failed s = [Call.addDoc sid (batch_of s dateNow) false;
                    Call.console_warn "Failed to upload batch:"] /\
  exec failed s = s /\
  sampleBuffer (exec failed s) = sampleBuffer s /\
  map (fun c => data (snd c))
    (persistence_calls (calls next (exec failed s))) = [sampleBuffer s].
Proof.
  intros Hsid Hb. cbv zeta. unfold outcome, calls, exec.
  rewrite (upload_rejected _ _ _ Hsid Hb). cbn [fst snd].
  repeat split.
  destruct resolves';
    [rewrite (upload_resolved _ _ _ Hsid Hb)
    | rewrite (upload_rejected _ _ _ Hsid Hb)]; reflexivity.
Qed.

Lemma rejected_upload_keeps_buffer_witness :
  sampleBuffer
    (exec (uploadBatchToFirestore (Some "2025-01-07-09-30-05") 3000 false)
       recording)
  = sampleBuffer recording.
Proof.
  apply (rejected_upload_keeps_buffer "2025-01-07-09-30-05" 3000 4000 true
           recording); [reflexivity | vm_compute; discriminate].
Defined.

(** Whatever its outcome, an upload returns normally and changes at most
    the buffer. *)
Lemma upload_frame sessionId dateNow resolves (s : Store) :
  exists s' t,
    uploadBatchToFirestore sessionId dateNow resolves s = (Returned tt, s', t)
    /\ log s' = log s /\ logging s' = logging s
    /\ accelerometerSub s' = accelerometerSub s
    /\ (sampleBuffer s' = [] \/ sampleBuffer s' = sampleBuffer s).
Proof.
  destruct sessionId as [sid |];
    [| exists s, []; repeat split; now right].
  destruct (JS.truthy_string sid) eqn:Hsid.
  - destruct (sampleBuffer s) as [| e b] eqn:Hb.
    + exists s, []. rewrite (upload_empty_buffer _ _ _ _ Hb).
      repeat split; now left.
    + assert (Hne : sampleBuffer s <> []) by (rewrite Hb; discriminate).
      destruct resolves.
      * rewrite (upload_resolved _ _ _ Hsid Hne).
        eexists; eexists; split; [reflexivity |]. repeat split; now left.
      * rewrite (upload_rejected _ _ _ Hsid Hne).
        eexists; eexists; split; [reflexivity |]. repeat split; now right.
  - exists s, []. unfold uploadBatchToFirestore. rewrite Hsid.
    repeat split; now right.
Qed.

(** Without a live accelerometer subscription no callback adds to the log
    or to the buffer. *)
Lemma run_unsubscribed Math (cbs : list Callback) :
  forall s, accelerometerSub s <> Some Live ->
  exists s' t,
    run Math (map Deliver cbs) s = (Returned tt, s', t) /\
    log s' = log s /\
    (sampleBuffer s' = [] \/ sampleBuffer s' = sampleBuffer s).
Proof.
  induction cbs as [| cb cbs IH]; intros s Hsub.
  - exists s, []. repeat split; now right.
  - assert (Hstep : exists s1 t1,
               deliver Math cb s = (Returned tt, s1, t1) /\
               log s1 = log s /\
               accelerometerSub s1 = accelerometerSub s /\
               (sampleBuffer s1 = [] \/ sampleBuffer s1 = sampleBuffer s)).
    { destruct cb as [location dateNow | data dateNow | dateNow resolves];
        unfold deliver, bind, get.
      - destruct (locationWatcher s) as [[|]|];
          eexists; eexists; (split; [reflexivity |]);
          repeat split; now right.
      - destruct (accelerometerSub s) as [[|]|] eqn:Ha; [congruence | |];
          eexists; eexists; (split; [reflexivity |]);
          repeat split; auto.
      - destruct (intervalId (effect s)).
        + destruct (upload_frame (closure_sessionId (effect s)) dateNow
                      resolves s) as (s1 & t1 & Hu & Hl & _ & Ha & Hb).
          rewrite Hu. exists s1, t1. repeat split; assumption.
        + exists s, []. repeat split; now right. }
    destruct Hstep as (s1 & t1 & Hd & Hl1 & Ha1 & Hb1).
    rewrite <- Ha1 in Hsub.
    destruct (IH s1 Hsub) as (s2 & t2 & Hr & Hl2 & Hb2).
    exists s2, (t1 ++ t2)%list.
    cbn [map run step]. unfold bind. rewrite Hd, Hr.
    repeat split; [congruence |].
    destruct Hb2 as [-> | ->]; [now left | assumption].
Qed.

(** ** No session id *)

Lemma persistence_calls_app (t1 t2 : list Call.t) :
  persistence_calls (t1 ++ t2)
  = (persistence_calls t1 ++ persistence_calls t2)%list.
Proof. apply flat_map_app. Qed.

(** Closes a goal [exists s' t acc, m s = (Returned tt, s', t) /\ ...] for
    a run that accepts no sample and whose other parts are at hand. *)
Ltac ran :=
  eexists; eexists; exists [];
  split; [reflexivity |]; rewrite ?app_nil_r; repeat split; auto.

(** No callback persists anything while the effect's closure has no
    session id; callbacks change neither the closure nor the React state
    other than the log, and what they add to the log they add to the
    buffer. *)
Lemma deliver_without_session Math (cb : Callback) (s : Store) :
  closure_sessionId (effect s) = None ->
  exists s' t accepted,
    deliver Math cb s = (Returned tt, s', t) /\
    persistence_calls t = [] /\
    effect s' = effect s /\
    sessionId s' = sessionId s /\
    logging s' = logging s /\
    sampleBuffer s' = (sampleBuffer s ++ accepted)%list /\
    log s' = (log s ++ accepted)%list.
Proof.
  intros Hsid.
  destruct cb as [location dateNow | data dateNow | dateNow resolves];
    unfold deliver, bind, get.
  - destruct (locationWatcher s) as [[|]|]; ran.
  - destruct (accelerometerSub s) as [[|]|]; try ran.
    unfold accelerometerListener, bind, get.
    destruct (negb (active (effect s)) || negb (closure_logging (effect s)));
      [ran |].
    destruct (latestSpeed s <? 5); [ran |].
    eexists; eexists; eexists; split; [reflexivity |].
    repeat split.
  - destruct (intervalId (effect s));
      [rewrite Hsid, upload_no_session |]; ran.
Qed.

Lemma run_without_session Math (cbs : list Callback) :
  forall s, closure_sessionId (effect s) = None ->
  exists s' t accepted,
    run Math (map Deliver cbs) s = (Returned tt, s', t) /\
    persistence_calls t = [] /\
    sessionId s' = sessionId s /\
    logging s' = logging s /\
    sampleBuffer s' = (sampleBuffer s ++ accepted)%list /\
    log s' = (log s ++ accepted)%list.
Proof.
  induction cbs as [| cb cbs IH]; intros s Hs.
  - exists s, [], []. rewrite !app_nil_r. repeat split.
  - destruct (deliver_without_session Math cb s Hs)
      as (s1 & t1 & a1 & Hd & Ht1 & He1 & Hid1 & Hlg1 & Hb1 & Hl1).
    rewrite <- He1 in Hs.
    destruct (IH s1 Hs)
      as (s2 & t2 & a2 & Hr & Ht2 & Hid2 & Hlg2 & Hb2 & Hl2).
    exists s2, (t1 ++ t2)%list, (a1 ++ a2)%list.
    cbn [map run step]. unfold bind. rewrite Hd, Hr.
    rewrite !app_assoc, <- Hb1, <- Hl1.
    repeat split; try congruence.
    rewrite persistence_calls_app, Ht1, Ht2. reflexivity.
Qed.

(** [resume] from an idle component runs the effect, which closes over the
    absent session id. *)
Lemma resume_from_idle perm (s : Store) :
  idle s ->
  exists s' t,
    invoke Resume perm s = (Returned tt, s', t) /\
    persistence_calls t = [] /\
    closure_sessionId (effect s') = None /\
    sessionId s' = None /\ logging s' = true /\
    sampleBuffer s' = sampleBuffer s /\ log s' = log s.
Proof.
  intros (Hlg & Hsid & Hc). unfold committed in Hc.
  destruct s as [lg lgg sid asub lw llr ll ls sb vt [act clg csid iid]].
  cbn in Hlg, Hsid, Hc. subst lgg sid clg.
  destruct asub, lw, perm;
    eexists; eexists; (split; [vm_compute; reflexivity |]); repeat split.
Qed.

(** C10: a tick of the uploader whose closure has no session id makes no
    call and leaves the store (so the buffer and the log) as it was, even
    with samples in the buffer; hence after [resume] from an idle
    component (not logging, no session), whatever fixes, samples and ticks
    are then delivered, [logging] is true, no persistence call is ever made,
    and the samples accepted since are all in the buffer, as they are in
    the log. *)
Theorem no_session_never_persists Math :
  (forall dateNow resolves (s : Store),
     let m := uploadBatchToFirestore None dateNow resolves in
     calls m s = [] /\ exec m s = s /\
     sampleBuffer (exec m s) = sampleBuffer s /\ log (exec m s) = log s) /\
  (forall (s : Store) perm (cbs : list Callback),
     idle s ->
     let m := run Math (Invoke Resume perm :: map Deliver cbs) in
     logging (exec m s) = true /\
     sessionId (exec m s) = None /\
     persistence_calls (calls m s) = [] /\
     exists accepted,
       sampleBuffer (exec m s) = (sampleBuffer s ++ accepted)%list /\
       log (exec m s) = (log s ++ accepted)%list).
Proof.
  split.
  - intros dateNow resolves s. cbv zeta. repeat split.
  - intros s perm cbs Hidle. cbv zeta.
    destruct (resume_from_idle perm s Hidle)
      as (s0 & t0 & H0 & Ht0 & Hclo0 & Hid0 & Hlg0 & Hb0 & Hl0).
    destruct (run_without_session Math cbs s0 Hclo0)
      as (s1 & t1 & acc & Hr & Ht1 & Hid1 & Hlg1 & Hb1 & Hl1).
    unfold exec, calls. cbn [run step]. unfold bind. rewrite H0, Hr.
    cbn [fst snd]. repeat split.
    + congruence.
    + congruence.
    + rewrite persistence_calls_app, Ht0, Ht1. reflexivity.
    + exists acc. split; congruence.
Qed.

Lemma no_session_never_persists_witness :
  let m := run seriesMath [Invoke Resume granted;
                           Deliver (LocationFix moving 1000);
                           Deliver (Motion bump 2000);
                           Deliver (Tick 3000 true)] in
  idle mounted /\
  logging (exec m mounted) = true /\
  sessionId (exec m mounted) = None /\
  persistence_calls (calls m mounted) = [].
Proof.
  cbv zeta.
  assert (Hidle : idle mounted) by (repeat split).
  split; [exact Hidle |].
  destruct (proj2 (no_session_never_persists seriesMath) mounted granted
              [LocationFix moving 1000; Motion bump 2000; Tick 3000 true]
              Hidle) as (Hlog & Hsid & Hcalls & _).
  split; [exact Hlog | split; [exact Hsid | exact Hcalls]].
Defined.

Example resumed_idle_accumulates :
  List.length (sampleBuffer resumed_idle) = 1%nat /\
  sampleBuffer
    (exec (run seriesMath [Deliver (Tick 3000 true);
                           Deliver (Motion bump 3010)]) resumed_idle)
  = (sampleBuffer resumed_idle ++
     [LogEntry.mk 0 1 0 3010 3 101 (latestSpeed resumed_idle) ""])%list.
Proof. split; vm_compute; reflexivity. Qed.

(** Pause, resume and clear keep a component without session without
    one, also in the closure of the effect they may run again. *)
Lemma invoke_without_session (c : Command) perm (s : Store) :
  is_startNew c = false ->
  sessionId s = None -> closure_sessionId (effect s) = None ->
  exists s' t,
    invoke c perm s = (Returned tt, s', t) /\
    persistence_calls t = [] /\
    sessionId s' = None /\ closure_sessionId (effect s') = None.
Proof.
  intros Hc Hsid Hclo.
  destruct s as [lg lgg sid asub lw llr ll ls sb vt [act clg csid iid]].
  cbn in Hsid, Hclo. subst sid csid.
  destruct c as [vehicleType env | | |]; [discriminate Hc | | |];
    destruct lgg, clg, asub, lw, perm;
    eexists; eexists; (split; [vm_compute; reflexivity |]); repeat split.
Qed.

(** As long as [startNew] is never invoked, no event sequence from the
    mounted component makes a persistence call. *)
Lemma without_startNew_nothing_persisted Math (es : list Event) :
  forallb (fun e => negb (starts_session e)) es = true ->
  forall s, sessionId s = None -> closure_sessionId (effect s) = None ->
  persistence_calls (calls (run Math es) s) = [].
Proof.
  induction es as [| e es IH]; intros Hes s Hsid Hclo; [reflexivity |].
  cbn in Hes. apply andb_true_iff in Hes. destruct Hes as [He Hes].
  assert (Hstep : exists s1 t1,
             step Math e s = (Returned tt, s1, t1) /\
             persistence_calls t1 = [] /\
             sessionId s1 = None /\ closure_sessionId (effect s1) = None).
  { destruct e as [c perm | cb]; cbn [step].
    - apply invoke_without_session; try assumption.
      cbn in He. now destruct (is_startNew c).
    - destruct (deliver_without_session Math cb s Hclo)
        as (s1 & t1 & a1 & Hd & Ht1 & He1 & Hid1 & _).
      exists s1, t1. repeat split; congruence. }
  destruct Hstep as (s1 & t1 & Hd & Ht1 & Hsid1 & Hclo1).
  specialize (IH Hes s1 Hsid1 Hclo1).
  unfold calls in *. cbn [run]. unfold bind. rewrite Hd.
  destruct (run Math es s1) as [[o s2] t2]. cbn [snd] in *.
  rewrite persistence_calls_app, Ht1, IH. reflexivity.
Qed.

(** The effect only runs again when [logging] changes: a session started
    while the component is already logging without one (after [resume] from
    idle) gets its session id, but the timer still calls the upload that
    closed over none, and nothing is persisted. *)
Example startNew_while_logging_keeps_closure :
  let m := run seriesMath [Invoke Resume granted;
                           Invoke (StartNew "car" env_ok) granted;
                           Deliver (Motion bump 2000);
                           Deliver (Tick 3000 true)] in
  sessionId (exec m mounted) = Some "2025-01-07-09-30-05" /\
  closure_sessionId (effect (exec m mounted)) = None /\
  List.length (sampleBuffer (exec m mounted)) = 1%nat /\
  persistence_calls (calls m mounted) = [].
Proof. vm_compute. repeat split. Qed.

(** ** Starting a session *)

(** C1, as stated, fails: with the permission refused both times it is
    asked, [startNew] on the mounted component sets [logging] to true. *)
Lemma startNew_refused_still_logging :
  permission env_denied = denied /\
  logging (exec (invoke (StartNew "car" env_denied) denied) mounted) = true.
Proof. split; vm_compute; reflexivity. Qed.

(** C1, amended: when the parent document is written and the permission is
    not granted (neither to [startNew] nor to the effect), [startNew] still
    sets [logging] to true and throws nothing (the handler itself returns,
    nothing is left for its caller to catch), and it subscribes neither the
    location watcher nor the accelerometer listener; started from a
    component that was not logging, the effect runs, logs the warning
    "Location permission not granted", arms the upload timer and leaves no
    live subscription, so that whatever the platform then delivers, the log
    and the buffer stay empty. *)
Theorem startNew_permission_refused (s : Store) vehicleType env perm :
  parentWritten env = true ->
  is_granted (permission env) = false ->
  is_granted perm = false ->
  let m := invoke (StartNew vehicleType env) perm in
  outcome (handler (StartNew vehicleType env)) s = Returned tt /\
  logging (exec m s) = true /\
  subscriptions (calls m s) = [] /\
  (logging s = false -> committed s ->
     In (Call.console_warn "Location permission not granted") (calls m s) /\
     intervalId (effect (exec m s)) = true /\
     accelerometerSub (exec m s) <> Some Live /\
     locationWatcher (exec m s) <> Some Live /\
     forall Math (cbs : list Callback),
       log (exec (run Math (map Deliver cbs)) (exec m s)) = [] /\
       sampleBuffer (exec (run Math (map Deliver cbs)) (exec m s)) = []).
Proof.
  intros Hw Hp Hperm m.
  assert (Hnow :
    outcome (handler (StartNew vehicleType env)) s = Returned tt /\
    logging (exec m s) = true /\
    subscriptions (calls m s) = [] /\
    (logging s = false -> committed s ->
       In (Call.console_warn "Location permission not granted") (calls m s)
       /\ intervalId (effect (exec m s)) = true
       /\ accelerometerSub (exec m s) <> Some Live
       /\ locationWatcher (exec m s) <> Some Live
       /\ log (exec m s) = []
       /\ sampleBuffer (exec m s) = [])).
  { subst m.
    destruct s as [lg lgg sid asub lw llr ll ls sb vt [act clg csid iid]].
    destruct env as [d1 d2 w p pos]. cbn in Hw, Hp. subst w.
    unfold committed. cbn [logging effect closure_logging].
    destruct p; try discriminate Hp;
      destruct perm; try discriminate Hperm;
      destruct clg, asub, lw;
      (split; [reflexivity |]); (split; [reflexivity |]);
      (split; [reflexivity |]);
      intros -> Hc; try discriminate Hc;
      (split; [cbn; tauto |]);
      repeat split; discriminate. }
  destruct Hnow as (Ho & Hlg & Hsubs & Hidle).
  split; [exact Ho |]. split; [exact Hlg |]. split; [exact Hsubs |].
  intros Hnl Hc.
  destruct (Hidle Hnl Hc) as (Hwarn & Hint & Hacc & Hloc & Hl & Hb).
  split; [exact Hwarn |]. split; [exact Hint |].
  split; [exact Hacc |]. split; [exact Hloc |].
  intros Math cbs.
  destruct (run_unsubscribed Math cbs (exec m s) Hacc)
    as (s2 & t2 & Hr & Hl2 & Hb2).
  unfold exec at 1 3. rewrite Hr. cbn [fst snd].
  split; [congruence |].
  destruct Hb2 as [-> | ->]; [reflexivity | assumption].
Qed.

Lemma startNew_permission_refused_witness :
  let m := invoke (StartNew "car" env_denied) denied in
  logging (exec m mounted) = true /\
  subscriptions (calls m mounted) = [] /\
  In (Call.console_warn "Location permission not granted") (calls m mounted).
Proof.
  cbv zeta.
  destruct (startNew_permission_refused mounted "car" env_denied denied
              eq_refl eq_refl eq_refl) as (_ & Hlog & Hsub & Hrest).
  destruct (Hrest eq_refl eq_refl) as (Hwarn & _).
  split; [exact Hlog | split; [exact Hsub | exact Hwarn]].
Defined.

(** When the parent document cannot be written, [startNew] has by then
    assigned the vehicle type and nothing else. *)
Lemma startNew_unwritten_frame (s : Store) vehicleType env perm :
  parentWritten env = false -> committed s ->
  exec (invoke (StartNew vehicleType env) perm) s
  = exec (set_currentVehicleTypeRef vehicleType) s /\
  calls (invoke (StartNew vehicleType env) perm) s
  = [Call.setDoc (formatDate (today env))
       (mkSessionDoc (createdAt env) (formatDate (today env)) "active"
          "enabled" vehicleType) false;
     Call.console_error "[Session] Failed to create parent document:"].
Proof.
  intros Hw Hc.
  destruct s as [lg lgg sid asub lw llr ll ls sb vt [act clg csid iid]].
  destruct env as [d1 d2 w p pos]. cbn in Hw. subst w.
  unfold committed in Hc. cbn in Hc. subst clg.
  unfold exec, calls, invoke, settled, handler, startNew, commit, bind,
    try_catch, setDoc, await, get, call, throw, ret, modify,
    set_currentVehicleTypeRef.
  cbn. rewrite Bool.eqb_reflx. cbn. split; reflexivity.
Qed.

(** C2: the code at a failing input.  A session recorded in a car is
    running; [startNew "motorcycle"] is pressed and the parent document
    cannot be written.  The session id, the log, the buffer, the smoothed
    speed, the retained fix and [logging] are as before, but the stored
    vehicle type is now "motorcycle", and the next sample accepted into the
    running car session is tagged with it. *)
Theorem startNew_unwritten_changes_vehicle_type :
  let s' :=
    exec (invoke (StartNew "motorcycle" env_unwritten) granted) recording in
  currentVehicleTypeRef recording = "car" /\
  currentVehicleTypeRef s' = "motorcycle" /\
  sessionId s' = sessionId recording /\
  logging s' = logging recording /\
  log s' = log recording /\
  sampleBuffer s' = sampleBuffer recording /\
  latestSpeed s' = latestSpeed recording /\
  lastLocationRef s' = lastLocationRef recording /\
  map LogEntry.vehicletype
    (sampleBuffer (exec (deliver seriesMath (Motion bump 2010)) s'))
  = ["car"; "motorcycle"].
Proof. vm_compute. repeat split. Qed.

(** * Further properties *)

(** ** Every step returns *)

Ltac open_store s :=
  destruct s as [lg lgg sid asub lw llr ll ls sb vt [act clg csid iid]].

(** Runs a handler, a render or a callback on a store whose constructor
    is visible, leaving strings and numbers as they are written. *)
Ltac run_js :=
  cbv beta iota zeta delta
    [exec calls outcome fst snd app negb andb orb Bool.eqb is_granted
     ret bind get modify call throw try_catch await settled
     setLog setLogging setSessionId set_accelerometerSub
     set_locationWatcher set_lastLocationRef set_latestLocation
     set_latestSpeed set_sampleBuffer set_currentVehicleTypeRef set_effect
     addDoc setDoc getCurrentPositionAsync
     setupSensors runEffect remove cleanup commit
     startNew pause resume clear handler invoke
     log logging sessionId accelerometerSub locationWatcher lastLocationRef
     latestLocation latestSpeed sampleBuffer currentVehicleTypeRef effect
     active closure_logging closure_sessionId intervalId
     today createdAt parentWritten permission currentPosition
     persistence_calls documents_created subscriptions flat_map].

(** A handler changes neither the effect closure nor, except for [clear]
    nulling them, the subscription refs, and it writes no batch. *)
Lemma handler_frame (c : Command) (s : Store) :
  exists o s1 t,
    handler c s = (o, s1, t) /\
    effect s1 = effect s /\
    (accelerometerSub s1 = accelerometerSub s \/ accelerometerSub s1 = None) /\
    (locationWatcher s1 = locationWatcher s \/ locationWatcher s1 = None) /\
    persistence_calls t = [].
Proof.
  destruct c as [vehicleType env | | |].
  - open_store s. destruct env as [d1 d2 w p pos].
    destruct w, p, pos; run_js; eexists; eexists; eexists;
      (split; [reflexivity |]); repeat split; now left.
  - open_store s. run_js. eexists; eexists; eexists;
      (split; [reflexivity |]); repeat split; now left.
  - open_store s. run_js. eexists; eexists; eexists;
      (split; [reflexivity |]); repeat split; now left.
  - open_store s. destruct asub, lw; run_js; eexists; eexists; eexists;
      (split; [reflexivity |]); repeat split; auto.
Qed.

(** The render after a handler makes the store consistent again. *)
Lemma commit_consistent perm (s : Store) :
  closure_consistent s ->
  exists s' t,
    commit perm s = (Returned tt, s', t) /\
    consistent s' /\
    persistence_calls t = [] /\
    log s' = log s /\ sampleBuffer s' = sampleBuffer s /\
    logging s' = logging s /\ sessionId s' = sessionId s.
Proof.
  intros [Hact Hclo]. open_store s. cbn in Hact, Hclo. subst act.
  unfold consistent, committed, closure_consistent.
  destruct lgg, clg;
    try (destruct (Hclo eq_refl) as (Ha & Hl & Hi); cbn in Hi; subst iid);
    destruct asub as [[|]|], lw as [[|]|], perm;
    try congruence;
    eexists; eexists; (split; [vm_compute; reflexivity |]);
    cbn; repeat split; try congruence; try discriminate; intuition.
Qed.

Lemma commit_returns perm (s : Store) :
  exists s' t,
    commit perm s = (Returned tt, s', t) /\
    persistence_calls t = [] /\
    log s' = log s /\ sampleBuffer s' = sampleBuffer s /\
    logging s' = logging s /\ sessionId s' = sessionId s /\
    currentVehicleTypeRef s' = currentVehicleTypeRef s /\
    latestSpeed s' = latestSpeed s /\
    lastLocationRef s' = lastLocationRef s /\
    latestLocation s' = latestLocation s.
Proof.
  open_store s.
  destruct lgg, clg, asub as [[|]|], lw as [[|]|], perm;
    eexists; eexists; (split; [vm_compute; reflexivity |]); repeat split.
Qed.

Lemma invoke_returns (c : Command) perm (s : Store) :
  exists s' t,
    invoke c perm s = (Returned tt, s', t) /\ persistence_calls t = [].
Proof.
  destruct (handler_frame c s) as (o & s1 & t1 & Hh & _ & _ & _ & Ht1).
  destruct (commit_returns perm s1) as (s2 & t2 & Hc & Ht2 & _).
  exists s2, (t1 ++ t2)%list. unfold invoke, bind, settled.
  rewrite Hh, Hc. split; [reflexivity |].
  rewrite persistence_calls_app, Ht1, Ht2. reflexivity.
Qed.

Lemma invoke_consistent (c : Command) perm (s : Store) :
  consistent s -> consistent (exec (invoke c perm) s).
Proof.
  intros [_ [Hact Hclo]].
  destruct (handler_frame c s) as (o & s1 & t1 & Hh & He & Ha & Hl & _).
  assert (H1 : closure_consistent s1).
  { split; [now rewrite He |]. rewrite He. intro Hf.
    destruct (Hclo Hf) as (Hna & Hnl & Hi).
    repeat split; [| | assumption].
    - destruct Ha as [-> | ->]; [assumption | discriminate].
    - destruct Hl as [-> | ->]; [assumption | discriminate]. }
  destruct (commit_consistent perm s1 H1) as (s2 & t2 & Hc & H2 & _).
  unfold exec, invoke, bind, settled. rewrite Hh, Hc. exact H2.
Qed.

(** What one delivered callback does: it returns; it leaves the React
    state other than the log, the effect closure, the subscriptions and the
    vehicle type alone; it makes at most one persistence call, under the
    closure's session id and for the whole non-empty buffer; and every
    sample it accepts goes to the end of the log and of what is buffered or
    uploaded. *)
Lemma deliver_frame Math (cb : Callback) (s : Store) :
  exists s' t accepted,
    deliver Math cb s = (Returned tt, s', t) /\
    effect s' = effect s /\
    logging s' = logging s /\
    sessionId s' = sessionId s /\
    accelerometerSub s' = accelerometerSub s /\
    locationWatcher s' = locationWatcher s /\
    currentVehicleTypeRef s' = currentVehicleTypeRef s /\
    log s' = (log s ++ accepted)%list /\
    (uploaded t ++ sampleBuffer s')%list
    = (sampleBuffer s ++ accepted)%list /\
    (persistence_calls t = [] \/
     exists sid dateNow,
       closure_sessionId (effect s) = Some sid /\
       JS.truthy_string sid = true /\
       sampleBuffer s <> [] /\
       persistence_calls t = [(sid, batch_of s dateNow)]).
Proof.
  destruct cb as [location dateNow | data dateNow | dateNow resolves];
    unfold deliver, bind, get.
  - destruct (locationWatcher s) as [[|]|] eqn:Hw;
      eexists; eexists; exists [];
      (split; [reflexivity |]); rewrite ?app_nil_r;
      repeat split; auto.
  - destruct (accelerometerSub s) as [[|]|] eqn:Ha;
      try (eexists; eexists; exists [];
           (split; [reflexivity |]); rewrite ?app_nil_r;
           repeat split; now auto).
    unfold accelerometerListener, bind, get.
    destruct (negb (active (effect s)) || negb (closure_logging (effect s)));
      [eexists; eexists; exists [];
       (split; [reflexivity |]); rewrite ?app_nil_r;
       repeat split; now auto |].
    destruct (latestSpeed s <? 5);
      [eexists; eexists; exists [];
       (split; [reflexivity |]); rewrite ?app_nil_r;
       repeat split; now auto |].
    eexists; eexists; eexists; (split; [reflexivity |]).
    repeat split; auto.
  - destruct (intervalId (effect s));
      [| exists s, [], []; rewrite ?app_nil_r; repeat split; auto].
    destruct (closure_sessionId (effect s)) as [sid |] eqn:Hsid;
      [| exists s, [], []; rewrite ?app_nil_r; repeat split; auto].
    destruct (JS.truthy_string sid) eqn:Ht;
      [| exists s, [], []; unfold uploadBatchToFirestore; rewrite Ht;
         rewrite ?app_nil_r; repeat split; auto].
    destruct (sampleBuffer s) as [| e b] eqn:Hb.
    { exists s, [], []. rewrite (upload_empty_buffer _ _ _ _ Hb).
      rewrite ?app_nil_r. repeat split; auto. }
    assert (Hne : sampleBuffer s <> []) by (rewrite Hb; discriminate).
    rewrite <- Hb.
    destruct resolves.
    + rewrite (upload_resolved _ _ _ Ht Hne).
      eexists; eexists; exists []. split; [reflexivity |].
      rewrite ?app_nil_r.
      repeat split; [cbn; apply app_nil_r |].
      right. exists sid, dateNow. repeat split; auto.
    + rewrite (upload_rejected _ _ _ Ht Hne).
      eexists; eexists; exists []. split; [reflexivity |].
      rewrite ?app_nil_r. repeat split.
      right. exists sid, dateNow. repeat split; auto.
Qed.

Lemma step_returns Math (e : Event) (s : Store) :
  exists s' t, step Math e s = (Returned tt, s', t).
Proof.
  destruct e as [c perm | cb]; cbn [step].
  - destruct (invoke_returns c perm s) as (s' & t & H & _). now exists s', t.
  - destruct (deliver_frame Math cb s) as (s' & t & a & H & _).
    now exists s', t.
Qed.

Lemma exec_run_cons Math (e : Event) (es : list Event) (s : Store) :
  exec (run Math (e :: es)) s = exec (run Math es) (exec (step Math e) s).
Proof.
  destruct (step_returns Math e s) as (s1 & t1 & H1).
  unfold exec. cbn [run]. unfold bind. rewrite H1. cbn [fst snd].
  now destruct (run Math es s1) as [[o s2] t2].
Qed.

Lemma calls_run_cons Math (e : Event) (es : list Event) (s : Store) :
  calls (run Math (e :: es)) s
  = (calls (step Math e) s ++ calls (run Math es) (exec (step Math e) s))%list.
Proof.
  destruct (step_returns Math e s) as (s1 & t1 & H1).
  unfold calls, exec. cbn [run]. unfold bind. rewrite H1. cbn [fst snd].
  now destruct (run Math es s1) as [[o s2] t2].
Qed.

(** A property of stores kept by every step is kept by every run. *)
Lemma run_invariant Math (P : Store -> Prop) :
  (forall e s, P s -> P (exec (step Math e) s)) ->
  forall es s, P s -> P (exec (run Math es) s).
Proof.
  intros Hstep es. induction es as [| e es IH]; intros s Hs; [exact Hs |].
  rewrite exec_run_cons. apply IH, Hstep, Hs.
Qed.

Lemma step_consistent Math (e : Event) (s : Store) :
  consistent s -> consistent (exec (step Math e) s).
Proof.
  intro Hs. destruct e as [c perm | cb]; cbn [step].
  - now apply invoke_consistent.
  - destruct (deliver_frame Math cb s)
      as (s' & t & a & H & He & Hlg & _ & Ha & Hl & _).
    unfold exec. rewrite H. cbn [fst snd].
    destruct Hs as [Hc [Hact Hclo]].
    unfold consistent, committed, closure_consistent.
    rewrite He, Hlg, Ha, Hl. repeat split; try assumption; now apply Hclo.
Qed.

Lemma mounted_consistent : consistent mounted.
Proof. repeat split; discriminate. Qed.

Lemma reachable_consistent Math (es : list Event) :
  consistent (exec (run Math es) mounted).
Proof.
  apply run_invariant; [apply step_consistent | apply mounted_consistent].
Qed.

(** ** Not logging means nothing happens *)

(** X1: however the component got there from mount, while [logging] is
    false no subscription is live and the timer is not armed, so a
    delivered fix, sample or tick changes nothing and calls nothing: no
    sample is accepted and nothing is uploaded while paused, cleared or
    idle. *)
Theorem not_logging_is_quiet Math (es : list Event) (cb : Callback) :
  let s := exec (run Math es) mounted in
  logging s = false ->
  accelerometerSub s <> Some Live /\
  locationWatcher s <> Some Live /\
  intervalId (effect s) = false /\
  exec (deliver Math cb) s = s /\
  calls (deliver Math cb) s = [].
Proof.
  cbv zeta. intro Hlg.
  destruct (reachable_consistent Math es) as [Hc [_ Hclo]].
  unfold committed in Hc. rewrite <- Hc in Hlg.
  destruct (Hclo Hlg) as (Ha & Hl & Hi).
  set (s := exec (run Math es) mounted) in *.
  assert (Hd : deliver Math cb s = (Returned tt, s, [])).
  { unfold deliver, bind, get.
    destruct cb as [location dateNow | data dateNow | dateNow resolves].
    - destruct (locationWatcher s) as [[|]|];
        [congruence | reflexivity | reflexivity].
    - destruct (accelerometerSub s) as [[|]|];
        [congruence | reflexivity | reflexivity].
    - rewrite Hi. reflexivity. }
  unfold exec, calls. rewrite Hd. repeat split; assumption.
Qed.

Lemma not_logging_is_quiet_witness :
  let s := exec (run seriesMath
                   [Invoke (StartNew "car" env_ok) granted;
                    Deliver (Motion bump 2000);
                    Invoke Pause granted]) mounted in
  logging s = false /\
  exec (deliver seriesMath (Motion bump 3000)) s = s.
Proof.
  cbv zeta. split; [vm_compute; reflexivity |].
  apply (not_logging_is_quiet seriesMath
           [Invoke (StartNew "car" env_ok) granted;
            Deliver (Motion bump 2000);
            Invoke Pause granted] (Motion bump 3000)).
  vm_compute. reflexivity.
Defined.

(** ** The log and the buffer *)

Lemma exec_invoke (c : Command) perm (s : Store) :
  exec (invoke c perm) s = exec (commit perm) (exec (handler c) s).
Proof.
  destruct (handler_frame c s) as (o & s1 & t1 & Hh & _).
  destruct (commit_returns perm s1) as (s2 & t2 & Hc & _).
  unfold exec, invoke, bind, settled. rewrite Hh. cbn [fst snd].
  now rewrite Hc.
Qed.

(** What a handler does to the log and the buffer: nothing, or it empties
    the buffer, or it empties both. *)
Lemma handler_log_buffer (c : Command) (s : Store) :
  let s1 := exec (handler c) s in
  (log s1 = log s /\
   (sampleBuffer s1 = sampleBuffer s \/ sampleBuffer s1 = [])) \/
  (log s1 = [] /\ sampleBuffer s1 = []).
Proof.
  destruct c as [vehicleType env | | |].
  - open_store s. destruct env as [d1 d2 w p pos].
    destruct w, p, pos; vm_compute; auto.
  - vm_compute; auto.
  - vm_compute; auto.
  - open_store s. destruct asub, lw; vm_compute; auto.
Qed.

Lemma handler_log_kept (c : Command) perm (s : Store) :
  resets_log (Invoke c perm) = false -> log (exec (handler c) s) = log s.
Proof.
  destruct c as [vehicleType env | | |]; cbn [resets_log]; intro H;
    try discriminate H; try reflexivity.
  destruct env as [d1 d2 w p pos]. cbn in H. subst w.
  open_store s. vm_compute. reflexivity.
Qed.

Lemma handler_log_reset (c : Command) perm (s : Store) :
  resets_log (Invoke c perm) = true -> log (exec (handler c) s) = [].
Proof.
  destruct c as [vehicleType env | | |]; cbn [resets_log]; intro H;
    try discriminate H.
  - destruct env as [d1 d2 w p pos]. cbn in H. subst w.
    open_store s. destruct p, pos; vm_compute; reflexivity.
  - open_store s. destruct asub, lw; vm_compute; reflexivity.
Qed.

Lemma commit_log perm (s : Store) : log (exec (commit perm) s) = log s.
Proof.
  destruct (commit_returns perm s) as (s' & t & H & _ & Hl & _).
  unfold exec. now rewrite H.
Qed.

Lemma commit_buffer perm (s : Store) :
  sampleBuffer (exec (commit perm) s) = sampleBuffer s.
Proof.
  destruct (commit_returns perm s) as (s' & t & H & _ & _ & Hb & _).
  unfold exec. now rewrite H.
Qed.

(** X2: the exposed log is append-only.  Over any run of events none of
    which is [clear] or a [startNew] whose parent document is written, the
    log at the end is the log at the start with samples added at its end;
    and each of those two events leaves the log empty. *)
Theorem log_append_only Math :
  (forall (es : list Event) (s : Store),
     forallb (fun e => negb (resets_log e)) es = true ->
     exists accepted,
       log (exec (run Math es) s) = (log s ++ accepted)%list) /\
  (forall (e : Event) (s : Store),
     resets_log e = true -> log (exec (step Math e) s) = []).
Proof.
  split.
  - induction es as [| e es IH]; intros s Hes.
    + exists []. now rewrite app_nil_r.
    + cbn in Hes. apply andb_true_iff in Hes. destruct Hes as [He Hes].
      apply negb_true_iff in He.
      assert (H1 : exists a1,
                 log (exec (step Math e) s) = (log s ++ a1)%list).
      { destruct e as [c perm | cb]; cbn [step].
        - exists []. rewrite app_nil_r, exec_invoke, commit_log.
          now apply handler_log_kept with perm.
        - destruct (deliver_frame Math cb s)
            as (s' & t & a & H & _ & _ & _ & _ & _ & _ & Hl & _).
          exists a. unfold exec. now rewrite H. }
      destruct H1 as (a1 & H1).
      destruct (IH (exec (step Math e) s) Hes) as (a2 & H2).
      exists (a1 ++ a2)%list.
      now rewrite exec_run_cons, H2, H1, app_assoc.
  - intros [c perm | cb] s H; [| discriminate H].
    cbn [step]. rewrite exec_invoke, commit_log.
    now apply handler_log_reset with perm.
Qed.

Lemma log_append_only_witness :
  exists accepted,
    log (exec (run seriesMath [Deliver (Motion bump 3000);
                               Invoke Pause granted;
                               Invoke Resume granted;
                               Deliver (Motion bump 4000)]) recording)
    = (log recording ++ accepted)%list.
Proof.
  apply (proj1 (log_append_only seriesMath)). reflexivity.
Defined.

(** X3: in every store reached from mount, the buffered samples are the
    last entries of the log: nothing waits for upload that the log does
    not show. *)
Theorem buffer_is_end_of_log Math (es : list Event) :
  exists older,
    log (exec (run Math es) mounted)
    = (older ++ sampleBuffer (exec (run Math es) mounted))%list.
Proof.
  apply (run_invariant Math
           (fun s => exists older, log s = (older ++ sampleBuffer s)%list));
    [| now exists []].
  intros e s (older & Hs). destruct e as [c perm | cb]; cbn [step].
  - rewrite exec_invoke, commit_log, commit_buffer.
    destruct (handler_log_buffer c s) as [[Hl [Hb | Hb]] | [Hl Hb]];
      rewrite Hl, Hb.
    + now exists older.
    + exists (log s). now rewrite app_nil_r.
    + now exists [].
  - destruct (deliver_frame Math cb s)
      as (s' & t & a & H & _ & _ & _ & _ & _ & _ & Hl & Hb & _).
    unfold exec. rewrite H. cbn [fst snd].
    exists (older ++ uploaded t)%list.
    now rewrite Hl, Hs, <- !app_assoc, Hb.
Qed.

(** ** What is uploaded *)

Lemma calls_invoke_persist (c : Command) perm (s : Store) :
  persistence_calls (calls (invoke c perm) s) = [].
Proof.
  destruct (invoke_returns c perm s) as (s' & t & H & Ht).
  unfold calls. now rewrite H.
Qed.

Lemma documents_created_app (t1 t2 : list Call.t) :
  documents_created (t1 ++ t2)
  = (documents_created t1 ++ documents_created t2)%list.
Proof. apply flat_map_app. Qed.

Lemma uploaded_app (t1 t2 : list Call.t) :
  uploaded (t1 ++ t2) = (uploaded t1 ++ uploaded t2)%list.
Proof.
  unfold uploaded. rewrite documents_created_app. apply flat_map_app.
Qed.

(** X4: no run of events, from any store, ever asks for an empty batch
    document: every persistence call carries a non-empty [data] with
    [y_values] its parallel projection, under a non-empty session id. *)
Theorem batches_are_never_empty Math (es : list Event) :
  forall s : Store,
  Forall (fun c =>
            data (snd c) <> [] /\
            y_values (snd c) = map LogEntry.y (data (snd c)) /\
            List.length (y_values (snd c)) = List.length (data (snd c)) /\
            JS.truthy_string (fst c) = true)
    (persistence_calls (calls (run Math es) s)).
Proof.
  induction es as [| e es IH]; intro s; [constructor |].
  rewrite calls_run_cons, persistence_calls_app.
  apply Forall_app. split; [| apply IH].
  destruct e as [c perm | cb]; cbn [step].
  - rewrite calls_invoke_persist. constructor.
  - destruct (deliver_frame Math cb s)
      as (s' & t & a & H & _ & _ & _ & _ & _ & _ & _ & _ & Hp).
    unfold calls. rewrite H. cbn [snd].
    destruct Hp as [-> | (sid & dateNow & _ & Ht & Hb & ->)];
      [constructor |].
    constructor; [| constructor].
    cbn. repeat split; try assumption. apply length_map.
Qed.

(** X5: uploading neither loses nor repeats a sample.  Over any sequence
    of fixes, samples and ticks, whichever writes fail, the samples of the
    documents created, followed by what is still buffered, are exactly what
    was buffered at the start followed by the samples accepted since, in
    order. *)
Theorem uploads_conserve_samples Math (cbs : list Callback) :
  forall s : Store,
  let m := run Math (map Deliver cbs) in
  exists accepted,
    log (exec m s) = (log s ++ accepted)%list /\
    (uploaded (calls m s) ++ sampleBuffer (exec m s))%list
    = (sampleBuffer s ++ accepted)%list.
Proof.
  induction cbs as [| cb cbs IH]; intro s; cbv zeta.
  - exists []. now rewrite !app_nil_r.
  - cbn [map]. rewrite exec_run_cons, calls_run_cons, uploaded_app.
    cbn [step].
    destruct (deliver_frame Math cb s)
      as (s1 & t1 & a1 & H & _ & _ & _ & _ & _ & _ & Hl & Hb & _).
    assert (He1 : exec (deliver Math cb) s = s1)
      by (unfold exec; now rewrite H).
    assert (Hc1 : calls (deliver Math cb) s = t1)
      by (unfold calls; now rewrite H).
    rewrite He1, Hc1.
    destruct (IH s1) as (a2 & Hl2 & Hb2).
    exists (a1 ++ a2)%list. split.
    + now rewrite Hl2, Hl, app_assoc.
    + rewrite <- (app_assoc (uploaded t1)), Hb2.
      rewrite (app_assoc (uploaded t1)), Hb. now rewrite <- app_assoc.
Qed.

(** Callbacks key every batch by the closure's session id and leave the
    closure alone. *)
Lemma callbacks_use_closure_id Math (cbs : list Callback) :
  forall s : Store,
  let m := run Math (map Deliver cbs) in
  effect (exec m s) = effect s /\
  sessionId (exec m s) = sessionId s /\
  Forall (fun c => closure_sessionId (effect s) = Some (fst c))
    (persistence_calls (calls m s)).
Proof.
  induction cbs as [| cb cbs IH]; intro s; cbv zeta.
  - repeat split. constructor.
  - cbn [map]. rewrite exec_run_cons, calls_run_cons, persistence_calls_app.
    cbn [step].
    destruct (deliver_frame Math cb s)
      as (s1 & t1 & a1 & H & He & _ & Hid & _ & _ & _ & _ & _ & Hp).
    assert (He1 : exec (deliver Math cb) s = s1)
      by (unfold exec; now rewrite H).
    assert (Hc1 : calls (deliver Math cb) s = t1)
      by (unfold calls; now rewrite H).
    rewrite He1, Hc1.
    destruct (IH s1) as (He2 & Hid2 & Hk2).
    split; [congruence |]. split; [congruence |].
    apply Forall_app. split.
    + destruct Hp as [-> | (sid & dateNow & Hc & _ & _ & ->)];
        constructor; [exact Hc | constructor].
    + now rewrite <- He.
Qed.

(** ** Starting while already logging *)

(** X6: the effect runs again only when [logging] changes.  A [startNew]
    that succeeds while the component is already logging therefore sets the
    new session id but leaves the effect, and with it the session id the
    timer's upload closed over, as they were: every batch written
    afterwards goes under the previous id (or, if there was none, nothing is
    written), until a pause and resume. *)
Theorem startNew_while_logging_keeps_old_key Math (s : Store)
    vehicleType env perm (cbs : list Callback) :
  committed s -> logging s = true -> parentWritten env = true ->
  let s' := exec (invoke (StartNew vehicleType env) perm) s in
  sessionId s' = Some (formatDate (today env)) /\
  effect s' = effect s /\
  Forall (fun c => closure_sessionId (effect s) = Some (fst c))
    (persistence_calls (calls (run Math (map Deliver cbs)) s')).
Proof.
  intros Hc Hlg Hw s'.
  assert (H : sessionId s' = Some (formatDate (today env)) /\
              effect s' = effect s).
  { subst s'. open_store s. destruct env as [d1 d2 w p pos].
    unfold committed in Hc. cbn in Hc, Hlg, Hw. subst lgg clg w.
    destruct p, pos; run_js; split; reflexivity. }
  destruct H as [Hid He]. split; [exact Hid |]. split; [exact He |].
  rewrite <- He. apply callbacks_use_closure_id.
Qed.

Lemma startNew_while_logging_keeps_old_key_witness :
  let s' := exec (invoke (StartNew "motorcycle" env_later) granted)
              recording in
  sessionId s' = Some "2025-01-07-18-05-00" /\
  map fst (persistence_calls
             (calls (run seriesMath
                       (map Deliver [Motion bump 3000; Tick 4000 true]))
                s'))
  = ["2025-01-07-09-30-05"].
Proof.
  cbv zeta.
  destruct (startNew_while_logging_keeps_old_key seriesMath recording
              "motorcycle" env_later granted
              [Motion bump 3000; Tick 4000 true]
              eq_refl eq_refl eq_refl) as (Hid & _ & _).
  split; [exact Hid | vm_compute; reflexivity].
Defined.

(** X7: [startNew] does not catch a rejected position lookup.  When the
    parent document is written and the permission granted but
    [getCurrentPositionAsync] rejects, the handler throws after it has
    replaced the session id and emptied the log and the buffer, and before
    [setLogging(true)]: [logging] is what it was, so from a component that
    was not logging the session does not start. *)
Theorem startNew_position_rejected (s : Store) vehicleType env perm :
  parentWritten env = true ->
  permission env = granted ->
  currentPosition env = None ->
  let s' := exec (invoke (StartNew vehicleType env) perm) s in
  outcome (handler (StartNew vehicleType env)) s = Thrown /\
  logging s' = logging s /\
  sessionId s' = Some (formatDate (today env)) /\
  log s' = [] /\
  sampleBuffer s' = [] /\
  latestSpeed s' = 0 /\
  lastLocationRef s' = None /\
  currentVehicleTypeRef s' = vehicleType.
Proof.
  intros Hw Hp Hpos s'. subst s'. rewrite exec_invoke.
  destruct (commit_returns perm (exec (handler (StartNew vehicleType env)) s))
    as (s2 & t2 & Hc & _ & Hl & Hb & Hlg & Hid & Hvt & Hsp & Hll & _).
  unfold exec at 1 3 5 7 9 11 13. rewrite Hc. cbn [fst snd].
  rewrite Hl, Hb, Hlg, Hid, Hvt, Hsp, Hll.
  open_store s. destruct env as [d1 d2 w p pos].
  cbn in Hw, Hp, Hpos. subst w p pos.
  run_js. repeat split.
Qed.

Lemma startNew_position_rejected_witness :
  let s' := exec (invoke (StartNew "car" env_lost) granted) mounted in
  logging s' = false /\ sessionId s' = Some "2025-01-07-09-30-05".
Proof.
  cbv zeta.
  destruct (startNew_position_rejected mounted "car" env_lost granted
              eq_refl eq_refl eq_refl) as (_ & Hlg & Hid & _).
  split; [exact Hlg | exact Hid].
Defined.

(** ** Stopping and resuming *)

(** X8: [clear] and [pause] are idempotent: invoked a second time, each
    leaves the store as the first left it and calls nothing (no
    subscription is removed twice, no timer cleared twice). *)
Theorem clear_and_pause_are_idempotent (s : Store) p1 p2 :
  (exec (invoke Clear p2) (exec (invoke Clear p1) s)
   = exec (invoke Clear p1) s /\
   calls (invoke Clear p2) (exec (invoke Clear p1) s) = []) /\
  (exec (invoke Pause p2) (exec (invoke Pause p1) s)
   = exec (invoke Pause p1) s /\
   calls (invoke Pause p2) (exec (invoke Pause p1) s) = []).
Proof.
  open_store s.
  destruct lgg, clg, asub as [[|]|], lw as [[|]|];
    run_js; repeat split.
Qed.

(** X9: [pause] followed by [resume] always runs the effect afresh.  The
    log, the session id and the smoothing state are kept and the buffer is
    empty; the timer is armed and its upload closes over the current session
    id; and with the permission granted both producers are subscribed
    again. *)
Theorem pause_then_resume (s : Store) p perm :
  let s' := exec (invoke Resume perm) (exec (invoke Pause p) s) in
  let g := exec (invoke Resume granted) (exec (invoke Pause p) s) in
  logging s' = true /\
  log s' = log s /\
  sessionId s' = sessionId s /\
  sampleBuffer s' = [] /\
  latestSpeed s' = latestSpeed s /\
  lastLocationRef s' = lastLocationRef s /\
  currentVehicleTypeRef s' = currentVehicleTypeRef s /\
  effect s' = mkEffect true true (sessionId s) true /\
  accelerometerSub g = Some Live /\
  locationWatcher g = Some Live.
Proof.
  open_store s.
  destruct lgg, clg, asub as [[|]|], lw as [[|]|], perm;
    run_js; repeat split.
Qed.

(** ** Session ids *)

Lemma pad2_two_digits (n : nat) :
  (n < 100)%nat -> JS.padStart 2 "0" (JS.String_ n) = two_digits n.
Proof.
  intro Hn.
  assert (Hall : forallb (fun k => String.eqb
                                     (JS.padStart 2 "0" (JS.String_ k))
                                     (two_digits k)) (seq 0 100) = true)
    by (vm_compute; reflexivity).
  rewrite forallb_forall in Hall.
  apply String.eqb_eq, Hall, in_seq. lia.
Qed.

Lemma year_four_digits (n : nat) :
  (1000 <= n < 100 * 100)%nat -> JS.String_ n = four_digits n.
Proof.
  intro Hn.
  assert (Hall : forallb (fun k => String.eqb (JS.String_ k) (four_digits k))
                   (seq 1000 (90 * 100)) = true)
    by (vm_compute; reflexivity).
  rewrite forallb_forall in Hall.
  apply String.eqb_eq, Hall, in_seq. lia.
Qed.

Lemma digit_inj (j k : nat) :
  (j < 10)%nat -> (k < 10)%nat -> digit j = digit k -> j = k.
Proof.
  intros Hj Hk H. unfold digit in H.
  apply (f_equal Ascii.nat_of_ascii) in H.
  rewrite !Ascii.nat_ascii_embedding in H by lia. lia.
Qed.

Lemma two_digits_inj (m n : nat) :
  (m < 100)%nat -> (n < 100)%nat -> two_digits m = two_digits n -> m = n.
Proof.
  intros Hm Hn H. unfold two_digits in H.
  assert (H1 : digit (m / 10) = digit (n / 10)) by congruence.
  assert (H0 : digit (m mod 10) = digit (n mod 10)) by congruence.
  apply digit_inj in H1;
    [| apply Nat.Div0.div_lt_upper_bound; lia
     | apply Nat.Div0.div_lt_upper_bound; lia].
  apply digit_inj in H0; [| apply Nat.mod_upper_bound; lia
                          | apply Nat.mod_upper_bound; lia].
  pose proof (Nat.div_mod_eq m 10) as Em.
  pose proof (Nat.div_mod_eq n 10) as En. congruence.
Qed.

Lemma four_digits_inj (m n : nat) :
  (m < 100 * 100)%nat -> (n < 100 * 100)%nat ->
  four_digits m = four_digits n -> m = n.
Proof.
  intros Hm Hn H. unfold four_digits in H.
  assert (H3 : digit (m / 1000) = digit (n / 1000)) by congruence.
  assert (H2 : digit (m / 100 mod 10) = digit (n / 100 mod 10))
    by congruence.
  assert (H10 : two_digits (m mod 100) = two_digits (n mod 100))
    by congruence.
  apply two_digits_inj in H10;
    [| apply Nat.mod_upper_bound; lia | apply Nat.mod_upper_bound; lia].
  apply digit_inj in H3;
    [| apply Nat.Div0.div_lt_upper_bound; lia
     | apply Nat.Div0.div_lt_upper_bound; lia].
  apply digit_inj in H2; [| apply Nat.mod_upper_bound; lia
                          | apply Nat.mod_upper_bound; lia].
  pose proof (Nat.div_mod_eq m 100) as Em.
  pose proof (Nat.div_mod_eq n 100) as En.
  pose proof (Nat.div_mod_eq (m / 100) 10) as Em'.
  pose proof (Nat.div_mod_eq (n / 100) 10) as En'.
  rewrite !Nat.Div0.div_div in Em', En'.
  change (100 * 10)%nat with 1000%nat in Em', En'.
  congruence.
Qed.

(** The session id of a calendar date, character by character. *)
Lemma formatDate_digits (d : JS.Date) :
  calendar_date d ->
  formatDate d
  = four_digits (JS.getFullYear d) ++ "-" ++
    two_digits (JS.getMonth d + 1) ++ "-" ++
    two_digits (JS.getDate d) ++ "-" ++
    two_digits (JS.getHours d) ++ "-" ++
    two_digits (JS.getMinutes d) ++ "-" ++
    two_digits (JS.getSeconds d).
Proof.
  intros (Hy & Hmo & Hd & Hh & Hmi & Hs). unfold formatDate.
  rewrite year_four_digits by exact Hy.
  rewrite !pad2_two_digits by lia. reflexivity.
Qed.

(** X10: the session id of a calendar date has the fixed shape
    [YYYY-MM-DD-HH-mm-ss]: nineteen characters, dashes at positions 4, 7,
    10, 13 and 16, and it is never the empty string. *)
Theorem formatDate_shape (d : JS.Date) :
  calendar_date d ->
  String.length (formatDate d) = 19%nat /\
  JS.truthy_string (formatDate d) = true /\
  forall i, In i [4; 7; 10; 13; 16]%nat ->
            String.get i (formatDate d) = Some dash.
Proof.
  intro Hd. rewrite (formatDate_digits d Hd).
  split; [reflexivity |]. split; [reflexivity |].
  intros i Hi. cbn in Hi.
  destruct Hi as [<- | [<- | [<- | [<- | [<- | []]]]]]; reflexivity.
Qed.

Lemma formatDate_shape_witness :
  String.length (formatDate morning) = 19%nat.
Proof.
  apply (formatDate_shape morning). unfold calendar_date. cbn. lia.
Defined.

(** X11: calendar dates that differ in any field down to the second have
    different session ids, so two sessions share an id (and the second
    overwrites the first's parent document) only when started within the
    same second. *)
Theorem formatDate_injective (d1 d2 : JS.Date) :
  calendar_date d1 -> calendar_date d2 ->
  formatDate d1 = formatDate d2 -> d1 = d2.
Proof.
  intros H1 H2 H.
  rewrite (formatDate_digits d1 H1), (formatDate_digits d2 H2) in H.
  destruct H1 as (Hy1 & Hmo1 & Hd1 & Hh1 & Hmi1 & Hs1).
  destruct H2 as (Hy2 & Hmo2 & Hd2 & Hh2 & Hmi2 & Hs2).
  destruct d1 as [y1 mo1 da1 h1 mi1 s1], d2 as [y2 mo2 da2 h2 mi2 s2].
  cbn [JS.getFullYear JS.getMonth JS.getDate JS.getHours JS.getMinutes
       JS.getSeconds] in *.
  unfold four_digits, two_digits in H. cbn [String.append] in H.
  assert (Ey : y1 = y2).
  { apply four_digits_inj; [lia | lia |].
    unfold four_digits, two_digits. congruence. }
  assert (Emo : (mo1 + 1 = mo2 + 1)%nat).
  { apply two_digits_inj; [lia | lia |]. unfold two_digits. congruence. }
  assert (Eda : da1 = da2).
  { apply two_digits_inj; [lia | lia |]. unfold two_digits. congruence. }
  assert (Eh : h1 = h2).
  { apply two_digits_inj; [lia | lia |]. unfold two_digits. congruence. }
  assert (Emi : mi1 = mi2).
  { apply two_digits_inj; [lia | lia |]. unfold two_digits. congruence. }
  assert (Es : s1 = s2).
  { apply two_digits_inj; [lia | lia |]. unfold two_digits. congruence. }
  f_equal; lia.
Qed.

Lemma formatDate_injective_witness :
  morning = JS.mkDate 2025 0 7 9 30 5.
Proof.
  apply (formatDate_injective morning (JS.mkDate 2025 0 7 9 30 5));
    [unfold calendar_date; cbn; lia
    | unfold calendar_date; cbn; lia
    | reflexivity].
Defined.

Lemma append_truthy (a : string) (c : Ascii.ascii) (r : string) :
  JS.truthy_string (a ++ String c r) = true.
Proof. destruct a; reflexivity. Qed.

(** Whatever the date, a session id is not the empty string. *)
Lemma formatDate_truthy (d : JS.Date) :
  JS.truthy_string (formatDate d) = true.
Proof. unfold formatDate. apply append_truthy. Qed.

Lemma or_string_empty (v : string) : JS.or_string v "" = v.
Proof. destruct v; reflexivity. Qed.

(** Runs callbacks as well. *)
Ltac run_all :=
  cbv beta iota zeta delta
    [exec calls outcome fst snd app negb andb orb Bool.eqb is_granted
     ret bind get modify call throw try_catch await settled
     setLog setLogging setSessionId set_accelerometerSub
     set_locationWatcher set_lastLocationRef set_latestLocation
     set_latestSpeed set_sampleBuffer set_currentVehicleTypeRef set_effect
     addDoc setDoc getCurrentPositionAsync
     setupSensors runEffect remove cleanup commit
     startNew pause resume clear handler invoke
     step deliver accelerometerListener uploadBatchToFirestore
     log logging sessionId accelerometerSub locationWatcher lastLocationRef
     latestLocation latestSpeed sampleBuffer currentVehicleTypeRef effect
     active closure_logging closure_sessionId intervalId
     today createdAt parentWritten permission currentPosition
     persistence_calls documents_created subscriptions flat_map
     run List.length Nat.eqb map].

(** X12: the whole path of a first sample.  From a component that is not
    logging, a [startNew] whose parent document is written, with the
    permission granted and a position whose speed seeds the gate open,
    followed by one accelerometer sample and one tick whose write succeeds:
    the sample is logged with the seeded speed and position and the chosen
    vehicle type, and it is uploaded, alone, in one document under the new
    session id, leaving the buffer empty. *)
Theorem first_sample_is_uploaded Math (s : Store) vehicleType env loc
    (data : AccelerometerData.t) (t1 t2 : float) :
  committed s -> logging s = false ->
  parentWritten env = true ->
  permission env = granted ->
  currentPosition env = Some loc ->
  (seed_speed loc <? 5) = false ->
  let id := formatDate (today env) in
  let entry :=
    LogEntry.mk (AccelerometerData.x data) (AccelerometerData.y data)
      (AccelerometerData.z data) t1
      (LocationObject.latitude loc) (LocationObject.longitude loc)
      (seed_speed loc) vehicleType in
  let m := run Math [Invoke (StartNew vehicleType env) granted;
                     Deliver (Motion data t1);
                     Deliver (Tick t2 true)] in
  sessionId (exec m s) = Some id /\
  logging (exec m s) = true /\
  log (exec m s) = [entry] /\
  sampleBuffer (exec m s) = [] /\
  documents_created (calls m s)
  = [(id, mkBatchDoc t2 [entry] [AccelerometerData.y data]
            (LatLng.mk (LocationObject.latitude loc)
                       (LocationObject.longitude loc))
            (seed_speed loc) vehicleType)].
Proof.
  intros Hc Hlg Hw Hp Hpos Hgate. cbv zeta.
  repeat (rewrite exec_run_cons || rewrite calls_run_cons).
  rewrite !documents_created_app.
  open_store s. destruct env as [d1 d2 w p pos].
  unfold committed in Hc. cbn in Hc, Hlg, Hw, Hp, Hpos.
  subst clg lgg w p pos. unfold seed_speed in *.
  destruct asub as [[|]|], lw as [[|]|];
    run_all; rewrite Hgate; run_all;
    rewrite !formatDate_truthy; run_all;
    rewrite !or_string_empty; repeat split.
Qed.

Lemma first_sample_is_uploaded_witness :
  let m := run seriesMath [Invoke (StartNew "car" env_ok) granted;
                           Deliver (Motion bump 2000);
                           Deliver (Tick 3000 true)] in
  sessionId (exec m mounted) = Some "2025-01-07-09-30-05" /\
  sampleBuffer (exec m mounted) = [].
Proof.
  cbv zeta.
  destruct (first_sample_is_uploaded seriesMath mounted "car" env_ok moving
              bump 2000 3000 eq_refl eq_refl eq_refl eq_refl eq_refl
              eq_refl) as (Hid & _ & _ & Hb & _).
  split; [exact Hid | exact Hb].
Defined.

(** ** The accelerometer screen *)

Lemma slice_last_length {A} (n : nat) (l : list A) :
  List.length (slice_last n l) = Nat.min n (List.length l).
Proof. unfold slice_last. rewrite length_skipn. lia. Qed.

Lemma slice_last_suffix {A} (n : nat) (l : list A) :
  exists older, l = (older ++ slice_last n l)%list.
Proof.
  exists (firstn (List.length l - n) l). unfold slice_last.
  now rewrite firstn_skipn.
Qed.

Lemma last_of_suffix {A} (older l : list A) (d : A) :
  l <> [] -> last (older ++ l) d = last l d.
Proof.
  intro Hl. induction older as [| a older IH]; [reflexivity |].
  cbn [app]. rewrite <- IH.
  destruct (older ++ l)%list eqn:E; [| reflexivity].
  apply app_eq_nil in E. now destruct E.
Qed.

Lemma nth_error_last {A} (l : list A) (d : A) :
  l <> [] -> nth_error l (List.length l - 1) = Some (last l d).
Proof.
  induction l as [| a l IH]; [congruence |]. intros _.
  destruct l as [| b l]; [reflexivity |].
  cbn [List.length]. replace (S (S (List.length l)) - 1)%nat
    with (S (List.length (b :: l) - 1)) by (cbn; lia).
  cbn [nth_error]. rewrite IH by discriminate. reflexivity.
Qed.

(** The points of the chart: between 1 and 50 of them; for a non-empty log
    the [y] values of its last entries, ending with the value shown as
    "Latest"; for an empty log the single point 0. *)
Lemma chartDataPoints_spec (log : list LogEntry.t) :
  (1 <= List.length (chartDataPoints log) <= 50)%nat /\
  List.length (chartLabels log) = List.length (chartDataPoints log) /\
  last (chartDataPoints log) 0 = latestValue log /\
  (log = [] -> chartDataPoints log = [0]) /\
  (log <> [] ->
   List.length (chartDataPoints log) = Nat.min 50 (List.length log) /\
   exists older,
     map LogEntry.y log = (older ++ chartDataPoints log)%list).
Proof.
  destruct log as [| e l0].
  { split; [cbn; lia |]. split; [reflexivity |]. split; [reflexivity |].
    split; [reflexivity |]. intro H. now contradiction H. }
  set (log := e :: l0).
  assert (Hne : log <> []) by discriminate.
  assert (Hpos : (0 < List.length log)%nat) by (cbn; lia).
  clearbody log.
  assert (Hlen : List.length (recentLog log)
                 = Nat.min 50 (List.length log))
    by apply slice_last_length.
  assert (Hpts : chartDataPoints log = map LogEntry.y (recentLog log)).
  { unfold chartDataPoints.
    destruct (Nat.ltb_spec 0 (List.length (recentLog log))); [reflexivity |].
    lia. }
  destruct (slice_last_suffix 50 log) as (older & Hsuf).
  fold (recentLog log) in Hsuf.
  assert (Hrne : recentLog log <> []).
  { intro H0. apply length_zero_iff_nil in H0. lia. }
  split; [rewrite Hpts, length_map; lia |].
  split; [unfold chartLabels; apply length_map |].
  split.
  - rewrite Hpts. unfold latestValue.
    destruct (Nat.ltb_spec 0 (List.length log)); [| lia].
    rewrite (nth_error_last log e Hne).
    rewrite Hsuf at 2. rewrite (last_of_suffix _ _ _ Hrne).
    clear - Hrne. induction (recentLog log) as [| a l IH]; [congruence |].
    destruct l as [| b l]; [reflexivity |].
    change (last (map LogEntry.y (b :: l)) 0 = LogEntry.y (last (b :: l) e)).
    apply IH. discriminate.
  - split; [congruence |]. intros _.
    split; [rewrite Hpts, length_map; exact Hlen |].
    exists (map LogEntry.y older). rewrite Hpts, <- map_app.
    now rewrite <- Hsuf.
Qed.

(** X13: what the chart is given.  While the log has fewer entries than
    the engine accepts arguments in one call, a render gives the chart
    between 1 and 50 points and as many labels; for a non-empty log the
    points are the [y] values of its last entries (all of them while there
    are at most 50), so the last point is the value shown as "Latest"; for
    an empty log it is the single point 0, as is "Latest".  Once the log
    has as many entries as the engine accepts arguments, the render throws
    at [Math.max(...)] and the chart is given nothing. *)
Theorem chart_points (maxArguments : nat) (log : list LogEntry.t) :
  ((List.length log < maxArguments)%nat ->
   exists r,
     render maxArguments log = Returned r /\
     (1 <= List.length (chart_data r) <= 50)%nat /\
     List.length (chart_labels r) = List.length (chart_data r) /\
     last (chart_data r) 0 = shown_latestValue r /\
     (log = [] -> chart_data r = [0]) /\
     (log <> [] ->
      List.length (chart_data r) = Nat.min 50 (List.length log) /\
      exists older,
        map LogEntry.y log = (older ++ chart_data r)%list)) /\
  ((maxArguments <= List.length log)%nat ->
   render maxArguments log = Thrown).
Proof.
  unfold render, maxValue, call_spread.
  rewrite length_app, length_map. cbn [List.length].
  split; intro H.
  - destruct (Nat.leb_spec (List.length log + 1) maxArguments); [| lia].
    eexists. split; [reflexivity |].
    cbn [chart_data chart_labels shown_latestValue].
    apply chartDataPoints_spec.
  - destruct (Nat.leb_spec (List.length log + 1) maxArguments);
      [lia | reflexivity].
Qed.

Lemma chart_points_witness :
  exists r,
    render 1000 (log recording) = Returned r /\
    last (chart_data r) 0 = shown_latestValue r.
Proof.
  destruct (proj1 (chart_points 1000 (log recording)))
    as (r & Hr & _ & _ & Hlast & _).
  - apply Nat.ltb_lt. vm_compute. reflexivity.
  - exists r. split; [exact Hr | exact Hlast].
Defined.

Lemma app_batches_provider (t : list Call.t) :
  app_batches (map from_provider t) = persistence_calls t.
Proof.
  induction t as [| c t IH]; [reflexivity |].
  cbn [map]. change (app_batches (from_provider c :: map from_provider t))
    with ((match c with
           | Call.addDoc sid doc _ => [(sid, doc)]
           | _ => []
           end) ++ app_batches (map from_provider t))%list.
  rewrite IH. reflexivity.
Qed.

Lemma app_batches_app (t1 t2 : list UiCall) :
  app_batches (t1 ++ t2) = (app_batches t1 ++ app_batches t2)%list.
Proof. apply flat_map_app. Qed.

Lemma command_result (c : Command) perm (a : App) (scr : Screen) :
  fst (command c perm a scr) = mkApp scr (exec (invoke c perm) (store a)) /\
  app_batches (snd (command c perm a scr)) = [].
Proof.
  destruct (invoke_returns c perm (store a)) as (s' & t & H & Ht).
  unfold command, exec. rewrite H. cbn [fst snd].
  split; [reflexivity |]. now rewrite app_batches_provider.
Qed.

Lemma commit_logging perm (s : Store) :
  logging (exec (commit perm) s) = logging s.
Proof.
  destruct (commit_returns perm s) as (s' & t & H & _ & _ & _ & Hl & _).
  unfold exec. now rewrite H.
Qed.

Lemma commit_vehicle perm (s : Store) :
  currentVehicleTypeRef (exec (commit perm) s) = currentVehicleTypeRef s.
Proof.
  destruct (commit_returns perm s)
    as (s' & t & H & _ & _ & _ & _ & _ & Hv & _).
  unfold exec. now rewrite H.
Qed.

(** What a handler, with the render after it, does to the vehicle type,
    the log and [logging]. *)
Lemma invoke_tag (c : Command) perm (s : Store) :
  let s' := exec (invoke c perm) s in
  match c with
  | StartNew v _ =>
      currentVehicleTypeRef s' = v /\ (log s' = log s \/ log s' = [])
  | Pause =>
      currentVehicleTypeRef s' = currentVehicleTypeRef s /\
      log s' = log s /\ logging s' = false
  | Resume =>
      currentVehicleTypeRef s' = currentVehicleTypeRef s /\ log s' = log s
  | Clear => log s' = [] /\ logging s' = false
  end.
Proof.
  cbv zeta. rewrite exec_invoke.
  rewrite ?commit_log, ?commit_logging, ?commit_vehicle.
  open_store s. destruct c as [v env | | |].
  - destruct env as [d1 d2 w p pos]. destruct w, p, pos; run_js; auto.
  - run_js; auto.
  - run_js; auto.
  - destruct asub, lw; run_js; auto.
Qed.

(** What a delivered callback adds to the log and asks to be written. *)
Lemma deliver_tag Math (cb : Callback) (s : Store) :
  exists s' t,
    deliver Math cb s = (Returned tt, s', t) /\
    logging s' = logging s /\
    currentVehicleTypeRef s' = currentVehicleTypeRef s /\
    (log s' = log s \/
     exists entry,
       log s' = (log s ++ [entry])%list /\
       LogEntry.vehicletype entry
       = JS.or_string (currentVehicleTypeRef s) "" /\
       closure_logging (effect s) = true) /\
    (persistence_calls t = [] \/
     exists sid doc,
       persistence_calls t = [(sid, doc)] /\
       batch_vehicletype doc = currentVehicleTypeRef s /\
       intervalId (effect s) = true).
Proof.
  unfold deliver, bind, get.
  destruct cb as [location dateNow | data dateNow | dateNow resolves].
  - destruct (locationWatcher s) as [[|]|];
      eexists; eexists; (split; [reflexivity |]); repeat split; auto.
  - destruct (accelerometerSub s) as [[|]|];
      try (eexists; eexists; (split; [reflexivity |]);
           repeat split; now auto).
    unfold accelerometerListener, bind, get.
    destruct (active (effect s));
      [| eexists; eexists; (split; [reflexivity |]);
         repeat split; now auto].
    destruct (closure_logging (effect s));
      [| eexists; eexists; (split; [reflexivity |]);
         repeat split; now auto].
    destruct (latestSpeed s <? 5);
      eexists; eexists; (split; [reflexivity |]); repeat split; auto.
    right. eexists. repeat split.
  - destruct (intervalId (effect s));
      [| exists s, []; repeat split; auto].
    destruct (closure_sessionId (effect s)) as [sid |];
      [| exists s, []; repeat split; auto].
    destruct (JS.truthy_string sid) eqn:Ht;
      [| exists s, []; unfold uploadBatchToFirestore; rewrite Ht;
         repeat split; auto].
    destruct (sampleBuffer s) as [| e b] eqn:Hb.
    { exists s, []. rewrite (upload_empty_buffer _ _ _ _ Hb).
      repeat split; auto. }
    assert (Hne : sampleBuffer s <> []) by (rewrite Hb; discriminate).
    destruct resolves;
      [rewrite (upload_resolved _ _ _ Ht Hne)
      | rewrite (upload_rejected _ _ _ Ht Hne)];
      eexists; eexists; (split; [reflexivity |]); repeat split; auto;
      right; exists sid, (batch_of s dateNow); repeat split.
Qed.

Lemma tagged_launched : tagged launched.
Proof.
  split; [apply mounted_consistent |].
  repeat split; try discriminate. constructor.
Qed.

(** Splits [tagged] into its five parts. *)
Ltac parts :=
  refine (conj _ (conj _ (conj _ (conj _ _))));
  cbn [fst snd screen store sessionStarted vehicleType].

(** For a press that leaves the store and the tagged parts of the screen
    alone. *)
Ltac kept :=
  parts;
  first
    [ assumption
    | match goal with
      | E : vehicleType _ = _ |- _ => rewrite E; assumption
      end
    | match goal with
      | E : sessionStarted _ = _ |- _ => rewrite E; assumption
      end ].

Lemma press_tagged (p : Press) perm (a : App) :
  tagged a ->
  tagged (fst (press p perm a)) /\
  app_batches (snd (press p perm a)) = [].
Proof.
  intros (Hcons & Hv & Hlog & Hst & Htag).
  destruct a as [scr s]. cbn [screen store] in *.
  destruct p as [| index | | | env | | confirmed | env];
    cbn [press screen store].
  - split; [kept | reflexivity].
  - destruct (showVehicleMenu scr);
      [| split; [kept | reflexivity]].
    destruct (nth_error VEHICLE_OPTIONS index) as [opt |] eqn:E;
      [| split; [kept | reflexivity]].
    split; [parts; try assumption | reflexivity].
    intros v [= <-].
    exact (nth_error_In _ _ E).
  - destruct (vehicleType scr) as [v |] eqn:Ev;
      [destruct (JS.truthy_string v) |];
      (split; [kept | reflexivity]).
  - destruct (showInstructionModal scr);
      (split; [kept | reflexivity]).
  - destruct (showInstructionModal scr);
      [| split; [kept | reflexivity]].
    destruct (vehicleType scr) as [v |] eqn:Ev;
      [| split; [kept | reflexivity]].
    destruct (JS.truthy_string v);
      [| split; [kept | reflexivity]].
    destruct (command_result (StartNew v env) perm (mkApp scr s)
                (mkScreen true (Some v) (showVehicleMenu scr) false))
      as [-> ->].
    split; [| reflexivity]. cbn [store screen].
    destruct (invoke_tag (StartNew v env) perm s) as [Href Hl].
    parts.
    + apply invoke_consistent, Hcons.
    + intros v0 [= <-]. now apply Hv.
    + reflexivity.
    + rewrite Href. intros _. now apply Hv.
    + destruct Hl as [-> | ->]; [assumption | constructor].
  - destruct (sessionStarted scr) eqn:Es;
      [| split; [kept | reflexivity]].
    destruct (logging s) eqn:El.
    + destruct (command_result Pause perm (mkApp scr s) scr) as [-> ->].
      split; [| reflexivity]. cbn [store screen].
      destruct (invoke_tag Pause perm s) as (Href & Hl & Hf).
      parts.
      * apply invoke_consistent, Hcons.
      * assumption.
      * intros _. exact Es.
      * rewrite Href. intros _. now apply Hst.
      * now rewrite Hl.
    + destruct (command_result Resume perm (mkApp scr s) scr) as [-> ->].
      split; [| reflexivity]. cbn [store screen].
      destruct (invoke_tag Resume perm s) as (Href & Hl).
      parts.
      * apply invoke_consistent, Hcons.
      * assumption.
      * intros _. exact Es.
      * rewrite Href. intros _. now apply Hst.
      * now rewrite Hl.
  - destruct confirmed;
      [| split; [kept | reflexivity]].
    destruct (command_result Clear perm (mkApp scr s)
                (mkScreen false None (showVehicleMenu scr)
                   (showInstructionModal scr))) as [Hf Hb].
    destruct (command Clear perm (mkApp scr s)
                (mkScreen false None (showVehicleMenu scr)
                   (showInstructionModal scr))) as [a' t].
    cbn [fst snd] in *. subst a'.
    split; [| exact Hb].
    destruct (invoke_tag Clear perm s) as (Hl & Hlg).
    parts.
    + apply invoke_consistent, Hcons.
    + discriminate.
    + rewrite Hlg. discriminate.
    + discriminate.
    + rewrite Hl. constructor.
  - split; [kept |].
    unfold exportLog.
    destruct (Nat.eqb _ 0), (written env), (sharingAvailable env)
      as [[|]|], (shared env); reflexivity.
Qed.

Lemma delivered_tagged Math (cb : Callback) (a : App) :
  tagged a ->
  tagged (fst (app_step Math (Delivered cb) a)) /\
  Forall (fun c => In (batch_vehicletype (snd c)) VEHICLE_OPTIONS)
    (app_batches (snd (app_step Math (Delivered cb) a))).
Proof.
  intros (Hcons & Hv & Hlog & Hst & Htag).
  destruct a as [scr s]. cbn [screen store app_step] in *.
  pose proof (step_consistent Math (Deliver cb) s Hcons) as Hcons'.
  cbn [step] in Hcons'. unfold exec in Hcons'.
  destruct (deliver_tag Math cb s)
    as (s' & t & Hd & Hlg & Href & Hl & Hp).
  rewrite Hd in *. cbn [fst snd] in *.
  rewrite app_batches_provider.
  assert (Hon : closure_logging (effect s) = true ->
                In (currentVehicleTypeRef s) VEHICLE_OPTIONS).
  { intro Hc. destruct Hcons as [Hcm _]. unfold committed in Hcm.
    rewrite Hcm in Hc. auto. }
  split.
  - parts.
    + exact Hcons'.
    + assumption.
    + now rewrite Hlg.
    + now rewrite Href.
    + destruct Hl as [-> | (entry & -> & Hvt & Hc)]; [assumption |].
      apply Forall_app. split; [assumption |].
      constructor; [| constructor].
      rewrite Hvt, or_string_empty. now apply Hon.
  - destruct Hp as [-> | (sid & doc & -> & Hvt & Hi)]; [constructor |].
    constructor; [| constructor]. cbn [snd]. rewrite Hvt.
    apply Hon. destruct Hcons as [_ [_ Hclo]].
    destruct (closure_logging (effect s)); [reflexivity |].
    destruct (Hclo eq_refl) as (_ & _ & Hoff). congruence.
Qed.

Lemma app_run_tagged Math (es : list AppEvent) :
  forall a, tagged a ->
  tagged (fst (app_run Math es a)) /\
  Forall (fun c => In (batch_vehicletype (snd c)) VEHICLE_OPTIONS)
    (app_batches (snd (app_run Math es a))).
Proof.
  induction es as [| e es IH]; intros a Ha.
  - split; [exact Ha | constructor].
  - cbn [app_run].
    assert (H1 : tagged (fst (app_step Math e a)) /\
                 Forall (fun c => In (batch_vehicletype (snd c))
                                     VEHICLE_OPTIONS)
                   (app_batches (snd (app_step Math e a)))).
    { destruct e as [p perm | cb].
      - destruct (press_tagged p perm a Ha) as [Ht Hb].
        cbn [app_step]. split; [exact Ht |]. rewrite Hb. constructor.
      - now apply delivered_tagged. }
    destruct (app_step Math e a) as [a1 t1]. cbn [fst snd] in H1.
    destruct H1 as [Ha1 Hb1].
    destruct (IH a1 Ha1) as [Ha2 Hb2].
    destruct (app_run Math es a1) as [a2 t2]. cbn [fst snd] in *.
    split; [exact Ha2 |].
    rewrite app_batches_app. apply Forall_app. now split.
Qed.

(** X14: provided every press and every delivery runs to completion before
    the next one (in particular, what [startNew] awaits has settled before
    anything else is pressed or delivered), then whatever is pressed and
    delivered after launch, every sample in the log and every batch the
    provider writes is tagged with one of the five vehicle options (never
    with the empty string); and the component is logging only after a
    vehicle was chosen and a start confirmed. *)
Theorem samples_and_batches_are_tagged Math (es : list AppEvent) :
  let a := fst (app_run Math es launched) in
  Forall (fun e => In (LogEntry.vehicletype e) VEHICLE_OPTIONS)
    (log (store a)) /\
  Forall (fun c => In (batch_vehicletype (snd c)) VEHICLE_OPTIONS)
    (app_batches (snd (app_run Math es launched))) /\
  (logging (store a) = false \/
   (sessionStarted (screen a) = true /\
    In (currentVehicleTypeRef (store a)) VEHICLE_OPTIONS)).
Proof.
  cbv zeta.
  destruct (app_run_tagged Math es launched tagged_launched)
    as [(Hcons & Hv & Hlog & Hst & Htag) Hb].
  split; [exact Htag |]. split; [exact Hb |].
  destruct (logging (store (fst (app_run Math es launched))));
    [right | now left].
  split; [now apply Hlog | apply Hst; now apply Hlog].
Qed.

Lemma app_run_app Math (es1 es2 : list AppEvent) (a : App) :
  app_run Math (es1 ++ es2) a
  = (fst (app_run Math es2 (fst (app_run Math es1 a))),
     (snd (app_run Math es1 a)
      ++ snd (app_run Math es2 (fst (app_run Math es1 a))))%list).
Proof.
  revert a. induction es1 as [| e es1 IH]; intro a.
  - cbn [app app_run fst snd]. now destruct (app_run Math es2 a).
  - cbn [app app_run]. destruct (app_step Math e a) as [a1 t1].
    rewrite IH. destruct (app_run Math es1 a1) as [a2 t2].
    cbn [fst snd]. now rewrite app_assoc.
Qed.

(** Deliveries reach the provider unchanged by the screen. *)
Lemma app_run_delivered Math (cbs : list Callback) (a : App) :
  app_run Math (map Delivered cbs) a
  = (mkApp (screen a) (exec (run Math (map Deliver cbs)) (store a)),
     map from_provider (calls (run Math (map Deliver cbs)) (store a))).
Proof.
  revert a. induction cbs as [| cb cbs IH]; intro a.
  - now destruct a.
  - cbn [map app_run app_step].
    rewrite exec_run_cons, calls_run_cons. cbn [step].
    destruct (deliver_frame Math cb (store a)) as (s1 & t1 & a1 & H & _).
    unfold exec at 2, calls at 1, exec at 2. rewrite H. cbn [fst snd].
    rewrite IH. cbn [screen store]. now rewrite map_app.
Qed.

(** X15: the screen enables the pause/resume button as soon as a start
    was confirmed, whether or not [startNew] succeeded.  Choosing a vehicle,
    confirming the start while the parent document cannot be written, and
    then pressing the button resumes with no session: the screen reports
    recording, but whatever is then delivered, no batch is ever written. *)
Theorem failed_start_then_play Math index v env p perm1 perm2
    (cbs : list Callback) :
  nth_error VEHICLE_OPTIONS index = Some v ->
  parentWritten env = false ->
  let presses := [Pressed VehicleDropdown p;
                  Pressed (VehicleOption index) p;
                  Pressed NewSession p;
                  Pressed (ModalReady env) perm1;
                  Pressed PauseResume perm2] in
  let r := app_run Math (presses ++ map Delivered cbs) launched in
  sessionStarted (screen (fst r)) = true /\
  logging (store (fst r)) = true /\
  sessionId (store (fst r)) = None /\
  app_batches (snd r) = [].
Proof.
  intros Hv Hw presses r. subst r.
  rewrite app_run_app, app_run_delivered. cbn [fst snd screen store].
  assert (H5 : exists scr s t,
             app_run Math presses launched = (mkApp scr s, t) /\
             sessionStarted scr = true /\
             closure_sessionId (effect s) = None /\
             sessionId s = None /\ logging s = true /\
             app_batches t = []).
  { subst presses. destruct env as [d1 d2 w pe pos]. cbn in Hw. subst w.
    destruct index as [| [| [| [| [| index]]]]]; cbn in Hv;
      try (destruct index; discriminate Hv); injection Hv as <-.
    all: destruct perm2;
      cbv beta iota zeta delta
        [app_run app_step press command launched first_render mounted
         screen store sessionStarted vehicleType showVehicleMenu
         showInstructionModal nth_error VEHICLE_OPTIONS JS.truthy_string
         String.eqb map app fst snd negb Bool.eqb is_granted
         ret bind get modify call throw try_catch await settled
         setLog setLogging setSessionId set_accelerometerSub
         set_locationWatcher set_lastLocationRef set_latestLocation
         set_latestSpeed set_sampleBuffer set_currentVehicleTypeRef
         set_effect setDoc setupSensors runEffect remove cleanup commit
         startNew resume handler invoke
         log logging sessionId accelerometerSub locationWatcher
         lastLocationRef latestLocation latestSpeed sampleBuffer
         currentVehicleTypeRef effect
         active closure_logging closure_sessionId intervalId
         today createdAt parentWritten permission currentPosition];
      eexists; eexists; eexists; (split; [reflexivity |]);
      repeat split. }
  destruct H5 as (scr & s & t & -> & Hst & Hclo & Hid & Hlg & Hb).
  cbn [fst snd screen store].
  destruct (run_without_session Math cbs s Hclo)
    as (s' & t' & acc & Hr & Ht' & Hid' & Hlg' & _).
  unfold exec, calls. rewrite Hr. cbn [fst snd].
  rewrite app_batches_app, app_batches_provider, Hb, Ht'.
  repeat split; congruence.
Qed.

Lemma failed_start_then_play_witness :
  let r := app_run seriesMath
             ([Pressed VehicleDropdown granted;
               Pressed (VehicleOption 1) granted;
               Pressed NewSession granted;
               Pressed (ModalReady env_unwritten) granted;
               Pressed PauseResume granted]
              ++ map Delivered [LocationFix moving 1000;
                                Motion bump 2000;
                                Tick 3000 true]) launched in
  logging (store (fst r)) = true /\ app_batches (snd r) = [].
Proof.
  cbv zeta.
  destruct (failed_start_then_play seriesMath 1
              "Sedan/ Normal car (e.g. City, Vios, Civic)" env_unwritten
              granted granted granted
              [LocationFix moving 1000; Motion bump 2000; Tick 3000 true]
              eq_refl eq_refl) as (_ & Hlg & _ & Hb).
  split; [exact Hlg | exact Hb].
Defined.

(** ** Standing still *)

Lemma finite_cases (v : float) :
  is_finite v = true ->
  (exists sg, Prim2SF v = S754_zero sg) \/
  (exists sg m e, Prim2SF v = S754_finite sg m e).
Proof.
  unfold is_finite, is_nan, is_infinity.
  rewrite !FloatAxioms.eqb_spec, abs_spec.
  change (Prim2SF infinity) with (S754_infinity false).
  destruct (Prim2SF v) as [sg | sg | | sg m e].
  - intros _. left. eauto.
  - destruct sg; discriminate.
  - discriminate.
  - intros _. right. eauto.
Qed.

Lemma zero_cases (v : float) (sg : bool) :
  Prim2SF v = S754_zero sg -> v = 0 \/ v = - 0.
Proof.
  intro H. destruct sg; [right | left]; apply Prim2SF_inj; rewrite H;
    reflexivity.
Qed.

(** A finite number minus itself is [+0]. *)
Lemma sub_self (v : float) : is_finite v = true -> v - v = 0.
Proof.
  intro Hv. apply Prim2SF_inj. rewrite sub_spec.
  change (Prim2SF 0) with (S754_zero false).
  destruct (finite_cases v Hv) as [(sg & ->) | (sg & m & e & ->)].
  - now destruct sg.
  - unfold SF64sub, SFsub. cbv zeta. rewrite Z.sub_diag. reflexivity.
Qed.

(** A finite number times [+0] is a zero. *)
Lemma mul_zero (v : float) : is_finite v = true -> v * 0 = 0 \/ v * 0 = - 0.
Proof.
  intro Hv. apply (zero_cases _ (match Prim2SF v with
                                 | S754_zero sg | S754_finite sg _ _ => sg
                                 | _ => false
                                 end)).
  rewrite mul_spec. change (Prim2SF 0) with (S754_zero false).
  destruct (finite_cases v Hv) as [(sg & ->) | (sg & m & e & ->)];
    cbn; now rewrite xorb_false_r.
Qed.

(** [+0] divided by a positive number is [+0]. *)
Lemma zero_div_pos (d : float) : (0 <? d) = true -> 0 / d = 0.
Proof.
  rewrite ltb_spec. change (Prim2SF 0) with (S754_zero false).
  intro Hd. apply Prim2SF_inj. rewrite div_spec.
  change (Prim2SF 0) with (S754_zero false).
  destruct (Prim2SF d) as [sg | sg | | sg m e]; try destruct sg;
    try discriminate Hd; reflexivity.
Qed.

Lemma distance_to_self Math (lat lon : float) :
  exact_at_zero Math ->
  is_finite lat = true -> is_finite lon = true ->
  is_finite (JS.cos Math (deg2rad lat) * JS.cos Math (deg2rad lat)) = true ->
  getDistanceFromLatLonInMeters Math lat lon lat lon = 0.
Proof.
  intros [Hsin Hatan] Hlat Hlon Hcos.
  unfold getDistanceFromLatLonInMeters. cbv zeta.
  rewrite (sub_self lat Hlat), (sub_self lon Hlon).
  replace (deg2rad 0) with 0 by reflexivity.
  replace (0 / 2) with 0 by reflexivity.
  rewrite Hsin.
  destruct (mul_zero _ Hcos) as [-> | ->].
  - replace (0 * 0 + 0 * 0) with 0 by reflexivity.
    replace (sqrt 0) with 0 by reflexivity.
    replace (sqrt (1 - 0)) with 1 by reflexivity.
    rewrite Hatan. reflexivity.
  - replace (0 * 0 + - 0 * 0) with 0 by reflexivity.
    replace (sqrt 0) with 0 by reflexivity.
    replace (sqrt (1 - 0)) with 1 by reflexivity.
    rewrite Hatan. reflexivity.
Qed.

(** X16: standing still.  For finite coordinates, and an engine whose
    cosine of the latitude has a finite square, the distance from a point
    to itself is exactly 0; so a fix at the coordinates of the previous one,
    later in time and without a supplied speed, derives the speed 0 (not a
    NaN), and one with a supplied speed of 0 likewise. *)
Theorem standing_still Math (prev : LastLocation.t) (timestamp : float) :
  exact_at_zero Math ->
  is_finite (LastLocation.lat prev) = true ->
  is_finite (LastLocation.lng prev) = true ->
  is_finite (JS.cos Math (deg2rad (LastLocation.lat prev))
             * JS.cos Math (deg2rad (LastLocation.lat prev))) = true ->
  (0 <? timeDiffSeconds timestamp prev) = true ->
  getDistanceFromLatLonInMeters Math
    (LastLocation.lat prev) (LastLocation.lng prev)
    (LastLocation.lat prev) (LastLocation.lng prev) = 0 /\
  currentSpeedKmh Math None (Some prev)
    (LastLocation.lat prev) (LastLocation.lng prev) timestamp = 0 /\
  currentSpeedKmh Math (Some (- 1)) (Some prev)
    (LastLocation.lat prev) (LastLocation.lng prev) timestamp = 0 /\
  currentSpeedKmh Math (Some 0) (Some prev)
    (LastLocation.lat prev) (LastLocation.lng prev) timestamp = 0.
Proof.
  intros Hm Hlat Hlon Hcos Hd.
  pose proof (distance_to_self Math _ _ Hm Hlat Hlon Hcos) as H0.
  split; [exact H0 |].
  assert (Hfix : currentSpeedKmh Math None (Some prev)
                   (LastLocation.lat prev) (LastLocation.lng prev) timestamp
                 = 0).
  { unfold currentSpeedKmh. rewrite Hd, H0, (zero_div_pos _ Hd).
    reflexivity. }
  split; [exact Hfix |]. split; [| reflexivity].
  rewrite <- Hfix. apply not_supplied_falls_back. reflexivity.
Qed.

Lemma standing_still_witness :
  currentSpeedKmh seriesMath None (Some origin) 0 0 2000 = 0.
Proof.
  apply (standing_still seriesMath origin 2000); try reflexivity.
  split; reflexivity.
Defined.

(** ** What a logged sample records *)

Lemma deliver_entry Math (cb : Callback) (s : Store) :
  log (exec (deliver Math cb) s) = log s \/
  exists entry,
    log (exec (deliver Math cb) s) = (log s ++ [entry])%list /\
    LogEntry.speed entry = latestSpeed s /\
    (latestSpeed s <? 5) = false /\
    LogEntry.latitude entry = LatLng.latitude (latestLocation s) /\
    LogEntry.longitude entry = LatLng.longitude (latestLocation s).
Proof.
  unfold exec, deliver, bind, get.
  destruct cb as [location dateNow | data dateNow | dateNow resolves].
  - destruct (locationWatcher s) as [[|]|]; now left.
  - destruct (accelerometerSub s) as [[|]|]; try now left.
    unfold accelerometerListener, bind, get.
    destruct (negb (active (effect s)) || negb (closure_logging (effect s)));
      [now left |].
    destruct (latestSpeed s <? 5) eqn:Hg; [now left |].
    right. eexists. repeat split.
  - destruct (intervalId (effect s)); [| now left].
    left.
    destruct (upload_frame (closure_sessionId (effect s)) dateNow resolves s)
      as (s1 & t1 & Hu & Hl1 & _).
    rewrite Hu. exact Hl1.
Qed.

(** X17: every sample in the log, in every store reached from mount, was
    taken while the smoothed speed was not below 5 km/h: the speed it
    records does not compare below 5. *)
Theorem logged_samples_passed_the_gate Math (es : list Event) :
  Forall (fun e => (LogEntry.speed e <? 5) = false)
    (log (exec (run Math es) mounted)).
Proof.
  apply (run_invariant Math
           (fun s => Forall (fun e => (LogEntry.speed e <? 5) = false)
                       (log s)));
    [| constructor].
  intros e s Hs. destruct e as [c perm | cb]; cbn [step].
  - rewrite exec_invoke, commit_log.
    destruct (handler_log_buffer c s) as [[-> _] | [-> _]];
      [assumption | constructor].
  - destruct (deliver_entry Math cb s)
      as [-> | (entry & -> & Hsp & Hg & _)]; [assumption |].
    apply Forall_app. split; [assumption |].
    constructor; [| constructor]. now rewrite Hsp.
Qed.

(** ** The maximum shown on the screen *)

Lemma SFleb_key (a b : spec_float) :
  a <> S754_nan -> b <> S754_nan ->
  (SFleb a b = true <-> key_le (order_key a) (order_key b)).
Proof.
  intros Ha Hb. unfold SFleb, SFcompare.
  destruct a as [sa | sa | | sa ma ea], b as [sb | sb | | sb mb eb];
    try congruence; try destruct sa; try destruct sb;
    cbn [order_key key_le];
    try (split; [intros _; lia | reflexivity]);
    try (split; [discriminate | lia]).
  - destruct (Z.compare_spec ea eb);
      rewrite ?Pos.compare_cont_spec; cbn [Pos.switch_Eq];
      try destruct (Pos.compare_spec ma mb); cbn [CompOpp];
      split; intros; try discriminate; try reflexivity; lia.
  - destruct (Z.compare_spec ea eb);
      rewrite ?Pos.compare_cont_spec; cbn [Pos.switch_Eq];
      try destruct (Pos.compare_spec ma mb); cbn [CompOpp];
      split; intros; try discriminate; try reflexivity; lia.
Qed.

Lemma SFltb_key (a b : spec_float) :
  a <> S754_nan -> b <> S754_nan ->
  (SFltb a b = true <-> key_lt (order_key a) (order_key b)).
Proof.
  intros Ha Hb. unfold SFltb, SFcompare.
  destruct a as [sa | sa | | sa ma ea], b as [sb | sb | | sb mb eb];
    try congruence; try destruct sa; try destruct sb;
    cbn [order_key key_lt];
    try (split; [intros _; lia | reflexivity]);
    try (split; [discriminate | lia]).
  - destruct (Z.compare_spec ea eb);
      rewrite ?Pos.compare_cont_spec; cbn [Pos.switch_Eq];
      try destruct (Pos.compare_spec ma mb); cbn [CompOpp];
      split; intros; try discriminate; try reflexivity; lia.
  - destruct (Z.compare_spec ea eb);
      rewrite ?Pos.compare_cont_spec; cbn [Pos.switch_Eq];
      try destruct (Pos.compare_spec ma mb); cbn [CompOpp];
      split; intros; try discriminate; try reflexivity; lia.
Qed.

Lemma not_nan_spec (v : float) :
  is_nan v = false <-> Prim2SF v <> S754_nan.
Proof.
  unfold is_nan. rewrite FloatAxioms.eqb_spec. unfold SFeqb, SFcompare.
  destruct (Prim2SF v) as [sg | sg | | sg m e]; try destruct sg;
    cbn; rewrite ?Z.compare_refl, ?Pos.compare_cont_refl; cbn;
    split; congruence.
Qed.

Lemma leb_not_nan (a b : float) :
  (a <=? b) = true -> Prim2SF a <> S754_nan /\ Prim2SF b <> S754_nan.
Proof.
  rewrite leb_spec. unfold SFleb, SFcompare.
  destruct (Prim2SF a) as [sa | sa | | sa ma ea],
           (Prim2SF b) as [sb | sb | | sb mb eb];
    intro H; try discriminate H; split; discriminate.
Qed.

Lemma leb_trans (a b c : float) :
  (a <=? b) = true -> (b <=? c) = true -> (a <=? c) = true.
Proof.
  intros Hab Hbc.
  destruct (leb_not_nan _ _ Hab) as [Ha Hb].
  destruct (leb_not_nan _ _ Hbc) as [_ Hc].
  rewrite leb_spec in *.
  rewrite SFleb_key in * by assumption.
  destruct (order_key (Prim2SF a)) as [[c1 e1] m1],
           (order_key (Prim2SF b)) as [[c2 e2] m2],
           (order_key (Prim2SF c)) as [[c3 e3] m3].
  unfold key_le in *. lia.
Qed.

Lemma ltb_leb (a b : float) : (a <? b) = true -> (a <=? b) = true.
Proof.
  rewrite ltb_spec, leb_spec. unfold SFltb, SFleb.
  now destruct (SFcompare (Prim2SF a) (Prim2SF b)) as [[| |] |].
Qed.

Lemma not_ltb_leb (a b : float) :
  is_nan a = false -> is_nan b = false ->
  (a <? b) = false -> (b <=? a) = true.
Proof.
  rewrite !not_nan_spec. intros Ha Hb Hlt.
  rewrite leb_spec, SFleb_key by assumption.
  assert (Hn : ~ key_lt (order_key (Prim2SF a)) (order_key (Prim2SF b))).
  { rewrite <- SFltb_key by assumption. rewrite <- ltb_spec. congruence. }
  destruct (order_key (Prim2SF a)) as [[c1 e1] m1],
           (order_key (Prim2SF b)) as [[c2 e2] m2].
  unfold key_le, key_lt in *. lia.
Qed.

Lemma leb_refl (a : float) : is_nan a = false -> (a <=? a) = true.
Proof.
  rewrite not_nan_spec. intro Ha.
  rewrite leb_spec, SFleb_key by assumption.
  destruct (order_key (Prim2SF a)) as [[c1 e1] m1]. unfold key_le. lia.
Qed.

Lemma pos_zero_eq (v : float) : is_pos_zero v = true -> v = 0.
Proof.
  unfold is_pos_zero. rewrite classify_spec. intro H.
  apply Prim2SF_inj. change (Prim2SF 0) with (S754_zero false).
  unfold SF64classify, SFclassify in H.
  destruct (Prim2SF v) as [sg | sg | | sg m e]; try destruct sg;
    try discriminate H; try reflexivity;
    destruct (Z.eqb _ _); discriminate H.
Qed.

Lemma neg_zero_eq (v : float) : is_neg_zero v = true -> v = - 0.
Proof.
  unfold is_neg_zero. rewrite classify_spec. intro H.
  apply Prim2SF_inj. change (Prim2SF (- 0)) with (S754_zero true).
  unfold SF64classify, SFclassify in H.
  destruct (Prim2SF v) as [sg | sg | | sg m e]; try destruct sg;
    try discriminate H; try reflexivity;
    destruct (Z.eqb _ _); discriminate H.
Qed.

(** The highest of numbers none of which is NaN. *)
Lemma max_from_spec (numbers : list float) :
  forall highest,
  is_nan highest = false ->
  forallb (fun n => negb (is_nan n)) numbers = true ->
  let r := max_from highest numbers in
  is_nan r = false /\
  (highest <=? r) = true /\
  Forall (fun n => (n <=? r) = true) numbers /\
  (r = highest \/ In r numbers).
Proof.
  induction numbers as [| n rest IH]; intros h Hh Hall; cbv zeta.
  - cbn [max_from]. repeat split; [exact Hh | now apply leb_refl
                                  | constructor | now left].
  - cbn [forallb] in Hall. apply andb_true_iff in Hall.
    destruct Hall as [Hn Hrest]. apply negb_true_iff in Hn.
    cbn [max_from]. rewrite Hn.
    destruct (is_pos_zero n && is_neg_zero h) eqn:Hz.
    + apply andb_true_iff in Hz. destruct Hz as [Hpz Hnz].
      apply pos_zero_eq in Hpz. apply neg_zero_eq in Hnz. subst n h.
      destruct (IH 0 Hn Hrest) as (Hr & Hle & Hf & Hin).
      repeat split; [exact Hr | | | ].
      * apply leb_trans with 0; [reflexivity | exact Hle].
      * constructor; assumption.
      * destruct Hin as [-> | Hin]; right; [now left | now right].
    + destruct (h <? n) eqn:Hlt.
      * destruct (IH n Hn Hrest) as (Hr & Hle & Hf & Hin).
        repeat split; [exact Hr | | | ].
        -- apply leb_trans with n; [now apply ltb_leb | exact Hle].
        -- constructor; assumption.
        -- destruct Hin as [-> | Hin]; right; [now left | now right].
      * destruct (IH h Hh Hrest) as (Hr & Hle & Hf & Hin).
        repeat split; [exact Hr | exact Hle | | ].
        -- constructor; [| assumption].
           apply leb_trans with h; [| exact Hle].
           now apply not_ltb_leb.
        -- destruct Hin as [-> | Hin]; [now left | right; now right].
Qed.

Lemma max_from_nan (numbers : list float) :
  forall highest,
  existsb is_nan numbers = true ->
  max_from highest numbers = nan.
Proof.
  induction numbers as [| n rest IH]; intros h Hex; [discriminate Hex |].
  cbn [existsb] in Hex. cbn [max_from].
  destruct (is_nan n); [reflexivity |]. cbn [orb] in Hex.
  destruct (is_pos_zero n && is_neg_zero h); [now apply IH |].
  destruct (h <? n); now apply IH.
Qed.

(** [Math.max] of the samples' [y] and 0.  When no sample's [y] is NaN it
    is not NaN, at least 0 and at least every sample's [y], and it is 0 or
    the [y] of some sample; a single NaN sample makes it NaN. *)
Lemma Math_max_of_log (log : list LogEntry.t) :
  let m := Math_max (map LogEntry.y log ++ [0])%list in
  (forallb (fun d => negb (is_nan (LogEntry.y d))) log = true ->
   is_nan m = false /\
   (0 <=? m) = true /\
   Forall (fun d => (LogEntry.y d <=? m) = true) log /\
   (m = 0 \/
    exists d, In d log /\ m = LogEntry.y d)) /\
  (existsb (fun d => is_nan (LogEntry.y d)) log = true ->
   m = nan).
Proof.
  cbv zeta. unfold Math_max. split.
  - intro Hall.
    assert (Hys : forallb (fun n => negb (is_nan n))
                    (map LogEntry.y log ++ [0]) = true).
    { rewrite forallb_app. apply andb_true_iff. split; [| reflexivity].
      rewrite <- Hall. clear Hall.
      induction log as [| d log IH]; [reflexivity |].
      cbn [map forallb]. now rewrite IH. }
    destruct (max_from_spec _ neg_infinity eq_refl Hys)
      as (Hr & _ & Hf & Hin).
    apply Forall_app in Hf. destruct Hf as [Hf H0].
    split; [exact Hr |]. split; [now inversion H0 |].
    split.
    + rewrite Forall_map in Hf. exact Hf.
    + destruct Hin as [Hinf | Hin].
      * exfalso. inversion H0 as [| ? ? Hz _]. rewrite Hinf in Hz.
        discriminate Hz.
      * apply in_app_or in Hin. destruct Hin as [Hin | [<- | []]].
        -- right. apply in_map_iff in Hin.
           destruct Hin as (d & Hd & Hdin). exists d. split; congruence.
        -- now left.
  - intro Hex. apply max_from_nan.
    rewrite existsb_app. apply orb_true_iff. left.
    rewrite <- Hex. clear Hex.
    induction log as [| d log IH]; [reflexivity |].
    cbn [map existsb]. now rewrite IH.
Qed.

(** X18: the "Maximum" of the screen.  While the log has fewer entries
    than the engine accepts arguments in one call, it is computed, and
    then: when no sample's [y] is NaN it is not NaN, at least 0 and at least
    every sample's [y], and it is 0 or the [y] of some sample; a single NaN
    sample makes it NaN.  Once the log has as many entries as the engine
    accepts arguments, computing it throws. *)
Theorem maximum_shown (maxArguments : nat) (log : list LogEntry.t) :
  ((List.length log < maxArguments)%nat ->
   exists m,
     maxValue maxArguments log = Returned m /\
     (forallb (fun d => negb (is_nan (LogEntry.y d))) log = true ->
      is_nan m = false /\
      (0 <=? m) = true /\
      Forall (fun d => (LogEntry.y d <=? m) = true) log /\
      (m = 0 \/ exists d, In d log /\ m = LogEntry.y d)) /\
     (existsb (fun d => is_nan (LogEntry.y d)) log = true -> m = nan)) /\
  ((maxArguments <= List.length log)%nat ->
   maxValue maxArguments log = Thrown).
Proof.
  unfold maxValue, call_spread.
  rewrite length_app, length_map. cbn [List.length].
  split; intro H.
  - destruct (Nat.leb_spec (List.length log + 1) maxArguments); [| lia].
    eexists. split; [reflexivity |].
    exact (Math_max_of_log log).
  - destruct (Nat.leb_spec (List.length log + 1) maxArguments);
      [lia | reflexivity].
Qed.

Lemma maximum_shown_witness :
  exists m,
    maxValue 1000 (log recording) = Returned m /\ (0 <=? m) = true.
Proof.
  destruct (proj1 (maximum_shown 1000 (log recording)))
    as (m & Hm & Hok & _).
  - apply Nat.ltb_lt. vm_compute. reflexivity.
  - exists m. split; [exact Hm |]. apply Hok. vm_compute. reflexivity.
Defined.

(** ** While a write is in flight *)

(** The tick as modelled, settling at once, is its two halves in
    sequence. *)
Lemma upload_is_begin_then_settle sessionId dateNow resolves (s : Store) :
  uploadBatchToFirestore sessionId dateNow resolves s
  = match upload_begin sessionId dateNow s with
    | Some pending => upload_settle pending resolves s
    | None => (Returned tt, s, [])
    end.
Proof.
  unfold uploadBatchToFirestore, upload_begin.
  destruct sessionId as [sid |]; [| reflexivity].
  destruct (negb (JS.truthy_string sid)); [reflexivity |].
  unfold bind at 1, get at 1.
  destruct (Nat.eqb (List.length (sampleBuffer s)) 0); [reflexivity |].
  destruct resolves; reflexivity.
Qed.

Lemma upload_settle_runs (pending : string * BatchDoc) (s : Store) :
  upload_settle pending true s
  = (Returned tt, exec (set_sampleBuffer []) s,
     [Call.addDoc (fst pending) (snd pending) true;
      Call.console_log ("Uploaded batch of " ++
                        JS.String_ (List.length (sampleBuffer s)) ++
                        " samples to Firestore")]) /\
  upload_settle pending false s
  = (Returned tt, s,
     [Call.addDoc (fst pending) (snd pending) false;
      Call.console_warn "Failed to upload batch:"]).
Proof. split; reflexivity. Qed.

Lemma samples_between_ticks Math (cbs : list Callback) :
  forallb (fun cb => negb (is_tick cb)) cbs = true ->
  forall s : Store,
  exists accepted,
    log (exec (run Math (map Deliver cbs)) s) = (log s ++ accepted)%list /\
    sampleBuffer (exec (run Math (map Deliver cbs)) s)
    = (sampleBuffer s ++ accepted)%list.
Proof.
  induction cbs as [| cb cbs IH]; intros Hall s.
  - exists []. now rewrite !app_nil_r.
  - cbn [forallb] in Hall. apply andb_true_iff in Hall.
    destruct Hall as [Hcb Hall]. cbn [map]. rewrite exec_run_cons.
    cbn [step].
    assert (H1 : exists a1,
               log (exec (deliver Math cb) s) = (log s ++ a1)%list /\
               sampleBuffer (exec (deliver Math cb) s)
               = (sampleBuffer s ++ a1)%list).
    { unfold exec, deliver, bind, get.
      destruct cb as [location dateNow | data dateNow | dateNow resolves];
        [| | discriminate Hcb].
      - exists []. rewrite !app_nil_r.
        destruct (locationWatcher s) as [[|]|]; split; reflexivity.
      - destruct (accelerometerSub s) as [[|]|];
          try (exists []; rewrite !app_nil_r; split; reflexivity).
        unfold accelerometerListener, bind, get.
        destruct (negb (active (effect s))
                  || negb (closure_logging (effect s)));
          [exists []; rewrite !app_nil_r; split; reflexivity |].
        destruct (latestSpeed s <? 5);
          [exists []; rewrite !app_nil_r; split; reflexivity |].
        eexists. split; reflexivity. }
    destruct H1 as (a1 & Hl1 & Hb1).
    destruct (IH Hall (exec (deliver Math cb) s)) as (a2 & Hl2 & Hb2).
    exists (a1 ++ a2)%list.
    now rewrite Hl2, Hb2, Hl1, Hb1, !app_assoc.
Qed.

(** X19: samples accepted while a write is in flight.  The pending
    document holds the buffer as it was when the tick fired.  If samples
    are accepted before the write settles, then on success the whole buffer
    is emptied, so those samples stay in the log but are in no document and
    no longer buffered; on failure they stay buffered behind the ones
    already there. *)
Theorem in_flight_samples Math sessionId dateNow pending
    (cbs : list Callback) (s : Store) :
  upload_begin sessionId dateNow s = Some pending ->
  forallb (fun cb => negb (is_tick cb)) cbs = true ->
  let s1 := exec (run Math (map Deliver cbs)) s in
  data (snd pending) = sampleBuffer s /\
  exists accepted,
    log s1 = (log s ++ accepted)%list /\
    sampleBuffer s1 = (sampleBuffer s ++ accepted)%list /\
    sampleBuffer (exec (upload_settle pending true) s1) = [] /\
    log (exec (upload_settle pending true) s1) = (log s ++ accepted)%list /\
    uploaded (calls (upload_settle pending true) s1) = sampleBuffer s /\
    sampleBuffer (exec (upload_settle pending false) s1)
    = (sampleBuffer s ++ accepted)%list /\
    uploaded (calls (upload_settle pending false) s1) = [].
Proof.
  intros Hb Hcbs s1.
  assert (Hdata : data (snd pending) = sampleBuffer s).
  { unfold upload_begin in Hb. destruct sessionId as [sid |]; [| discriminate].
    destruct (negb (JS.truthy_string sid)); [discriminate |].
    destruct (Nat.eqb (List.length (sampleBuffer s)) 0); [discriminate |].
    now injection Hb as <-. }
  split; [exact Hdata |].
  destruct (samples_between_ticks Math cbs Hcbs s) as (acc & Hl & Hbuf).
  exists acc. fold s1 in Hl, Hbuf.
  destruct (upload_settle_runs pending s1) as [Hok Hko].
  unfold exec, calls. rewrite Hok, Hko. cbn [fst snd].
  repeat split; try assumption.
  cbn. rewrite app_nil_r. exact Hdata.
Qed.

Lemma in_flight_samples_witness :
  let pending := ("2025-01-07-09-30-05", batch_of recording 3000) in
  let s1 := exec (run seriesMath (map Deliver [Motion bump 3010]))
              recording in
  List.length (log s1) = 2%nat /\
  List.length (data (snd pending)) = 1%nat /\
  sampleBuffer (exec (upload_settle pending true) s1) = [].
Proof.
  cbv zeta.
  destruct (in_flight_samples seriesMath (Some "2025-01-07-09-30-05") 3000
              ("2025-01-07-09-30-05", batch_of recording 3000)
              [Motion bump 3010] recording eq_refl eq_refl)
    as (_ & acc & _ & _ & Hb & _).
  split; [vm_compute; reflexivity |].
  split; [vm_compute; reflexivity | exact Hb].
Defined.

(** ** A clear during a start *)

Lemma startNew_is_begin_then_settle vehicleType env (s : Store) :
  startNew vehicleType env s
  = (startNew_begin vehicleType env ;; startNew_settle env) s.
Proof.
  open_store s. destruct env as [d1 d2 w p pos].
  unfold startNew_begin, startNew_settle.
  destruct w, p, pos; run_js; reflexivity.
Qed.

(** X20: a [clear] that arrives while [startNew] is suspended at its first
    [await].  [startNew] has assigned the vehicle type and asked for the
    parent document; [clear] then empties the vehicle type; when the write
    succeeds (permission granted, a seed position whose speed opens the
    gate) the rest of [startNew] starts the session all the same.  The
    component ends logging under the new session id with an empty vehicle
    type: the next sample is logged, and uploaded, tagged with the empty
    string. *)
Theorem clear_during_startNew Math (s : Store) vehicleType env loc perm
    (data : AccelerometerData.t) (t1 t2 : float) :
  parentWritten env = true ->
  permission env = granted ->
  currentPosition env = Some loc ->
  (seed_speed loc <? 5) = false ->
  let id := formatDate (today env) in
  let entry :=
    LogEntry.mk (AccelerometerData.x data) (AccelerometerData.y data)
      (AccelerometerData.z data) t1
      (LocationObject.latitude loc) (LocationObject.longitude loc)
      (seed_speed loc) "" in
  let m := settled (startNew_begin vehicleType env) ;;
           invoke Clear perm ;;
           settled (startNew_settle env) ;; commit granted ;;
           run Math [Deliver (Motion data t1); Deliver (Tick t2 true)] in
  logging (exec m s) = true /\
  sessionId (exec m s) = Some id /\
  currentVehicleTypeRef (exec m s) = "" /\
  log (exec m s) = [entry] /\
  documents_created (calls m s)
  = [(id, mkBatchDoc t2 [entry] [AccelerometerData.y data]
            (LatLng.mk (LocationObject.latitude loc)
                       (LocationObject.longitude loc))
            (seed_speed loc) "")].
Proof.
  intros Hw Hp Hpos Hgate. cbv zeta.
  open_store s. destruct env as [d1 d2 w p pos].
  cbn in Hw, Hp, Hpos. subst w p pos. unfold seed_speed in *.
  unfold startNew_begin, startNew_settle.
  destruct clg, asub as [[|]|], lw as [[|]|], perm;
    run_all; rewrite Hgate; run_all;
    rewrite ?formatDate_truthy; run_all;
    repeat split.
Qed.

Lemma clear_during_startNew_witness :
  let m := settled (startNew_begin "car" env_ok) ;;
           invoke Clear granted ;;
           settled (startNew_settle env_ok) ;; commit granted ;;
           run seriesMath [Deliver (Motion bump 2000);
                           Deliver (Tick 3000 true)] in
  logging (exec m mounted) = true /\
  currentVehicleTypeRef (exec m mounted) = "".
Proof.
  cbv zeta.
  destruct (clear_during_startNew seriesMath mounted "car" env_ok moving
              granted bump 2000 3000 eq_refl eq_refl eq_refl eq_refl)
    as (Hlg & _ & Hvt & _).
  split; [exact Hlg | exact Hvt].
Defined.
